(** * entropy.py: information content of a text under a language model

    A shallow embedding of [src/entropy.py].  The script tokenizes a text,
    walks the token ids from position 1 on, asks GPT-2 for the probability of
    each token given the tokens before it, and sums [-log2 p].  A second
    function adds [log2] of a cached background probability to every term.

    What is embedded, and how:
    - Python [float] is IEEE binary64: Rocq's primitive [float] with the
      kernel's operations.  The arithmetic the functions use is collected in
      the class [PyFloat], so that the same code can also be read over exact
      real numbers where a statement is about ideal arithmetic.
    - [math.log2] is CPython's wrapper: a NaN argument is returned as it is,
      a positive argument goes to the C library's [log2] (a parameter,
      [libm_log2]), anything else raises [ValueError].
    - the tokenizer, [tokenizer.decode], the model behind [q_prob] and the
      table [p_bg_dist] are external: fields of [Env].
    - exceptions are values of [exn]; a computation is a function from the
      log of model calls made so far to a result and the extended log. *)

From Stdlib Require Import Reals Lra.
From Stdlib Require Import ZArith String List Bool Lia Floats.
From Stdlib Require Import DecimalString.
Import ListNotations.

Local Open Scope string_scope.
Local Open Scope list_scope.

(** ** Exceptions and the computation monad *)

Inductive exn : Type :=
| ValueError (msg : string)
| ZeroDivisionError.

(** One entry per forward pass of the model: the [history_ids] it was given. *)
Definition trace : Type := list (list Z).

Definition M (A : Type) : Type := trace -> (exn + A) * trace.

Definition ret {A : Type} (a : A) : M A := fun tr => (inr a, tr).

Definition raise {A : Type} (e : exn) : M A := fun tr => (inl e, tr).

Definition bind {A B : Type} (m : M A) (k : A -> M B) : M B :=
  fun tr =>
    match m tr with
    | (inl e, tr') => (inl e, tr')
    | (inr a, tr') => k a tr'
    end.

Declare Scope py_scope.
Delimit Scope py_scope with py.
Notation "x <- m ;; k" := (bind m (fun x => k))
  (at level 100, m at next level, right associativity) : py_scope.
Local Open Scope py_scope.

(** [for i in idxs: acc = body(i, acc)], stopping at the first exception. *)
Fixpoint for_each {A : Type} (idxs : list nat) (body : nat -> A -> M A)
  (acc : A) : M A :=
  match idxs with
  | [] => ret acc
  | i :: rest => acc' <- body i acc ;; for_each rest body acc'
  end.

(** [range(lo, hi)] *)
Definition range (lo hi : nat) : list nat := seq lo (hi - lo).

(** ** Float arithmetic as the functions use it *)

Class PyFloat (F : Type) : Type := {
  fzero : F;                    (* the literal 0.0 *)
  fadd : F -> F -> F;           (* x + y *)
  fneg : F -> F;                (* -x *)
  fdiv : F -> F -> F;           (* x / y, once the divisor is known non-zero *)
  fle : F -> F -> bool;         (* x <= y *)
  flt : F -> F -> bool;         (* x < y *)
  feq : F -> F -> bool;         (* x == y *)
  fisnan : F -> bool;           (* isnan(x) *)
  of_int : Z -> F;              (* the float a Python int converts to *)
  libm_log2 : F -> F            (* the C library's log2, called on x > 0 only *)
}.

(** The float an int converts to: rounded to nearest even, exact below 2^53.
    (Python refuses ints of 2^1024 and more; a tensor length never gets
    near.) *)
Definition float_of_Z (n : Z) : float :=
  SF2Prim (binary_normalize prec emax n 0 false).

(** Python's floats, over a given C library [log2]. *)
Definition binary64 (log2 : float -> float) : PyFloat float := {|
  fzero := 0%float;
  fadd := PrimFloat.add;
  fneg := PrimFloat.opp;
  fdiv := PrimFloat.div;
  fle := PrimFloat.leb;
  flt := PrimFloat.ltb;
  feq := PrimFloat.eqb;
  fisnan := PrimFloat.is_nan;
  of_int := float_of_Z;
  libm_log2 := log2
|}.

(** The same operations over the real numbers: no rounding, no NaN. *)
Definition exact_real : PyFloat R := {|
  fzero := 0%R;
  fadd := Rplus;
  fneg := Ropp;
  fdiv := Rdiv;
  fle := fun x y => if Rle_dec x y then true else false;
  flt := fun x y => if Rlt_dec x y then true else false;
  feq := fun x y => if Req_dec_T x y then true else false;
  fisnan := fun _ => false;
  of_int := IZR;
  libm_log2 := fun x => (ln x / ln 2)%R
|}.

(** ** The external collaborators

    [oracle h t] is the float [q_prob(t, h)] returns: the entry for token
    [t] of [exp(log_softmax(model(h).logits[0, -1, :]))].  The model is
    taken to answer every history; [p_bg_dist] is the table the script
    computes once, when it is loaded, from the history [[bos_id]]. *)

Record Env (F : Type) : Type := {
  tokenizer : string -> list Z;  (* tokenizer(text, ...).input_ids[0] *)
  decode : Z -> string;          (* tokenizer.decode *)
  oracle : list Z -> Z -> F;     (* the float q_prob gets from model(history) *)
  p_bg_dist : Z -> F             (* the table computed once from [[bos_id]] *)
}.
Arguments tokenizer {F} _ _.
Arguments decode {F} _ _.
Arguments oracle {F} _ _ _.
Arguments p_bg_dist {F} _ _.

(** ** The program *)

Section Program.
Context {F : Type} {PF : PyFloat F} (env : Env F).

(** [math.log2] *)
Definition math_log2 (x : F) : M F :=
  if fisnan x then ret x
  else if flt fzero x then ret (libm_log2 x)
  else raise (ValueError "math domain error").

(** [float / float], and [float / int] after the int is converted *)
Definition truediv (x y : F) : M F :=
  if feq y fzero then raise ZeroDivisionError else ret (fdiv x y).

(** [q_prob(token_id, history_ids)]: one forward pass, logged.  A pass the
    model refuses (GPT-2 raises IndexError on a history longer than its
    1024 positions) is not part of this embedding: every statement below
    is about a run in which the model answered the queries it speaks of. *)
Definition q_prob (token_id : Z) (history_ids : list Z) : M F :=
  fun tr => (inr (oracle env history_ids token_id), tr ++ [history_ids]).

(** [ValueError(f"Invalid probability: {tokenizer.decode(ids[i])}")] *)
Definition invalid_probability (token : Z) : exn :=
  ValueError (String.append "Invalid probability: " (decode env token)).

(** The body of the loop of [info_content], at index [i]. *)
Definition score (ids : list Z) (i : nat) (total_bits : F) : M F :=
  let history_ids := firstn i ids in
  p_next <- q_prob (nth i ids 0%Z) history_ids ;;
  if fle p_next fzero then raise (invalid_probability (nth i ids 0%Z))
  else
    l <- math_log2 p_next ;;
    ret (fadd total_bits (fneg l)).

Definition info_content (text : string) : M (F * F) :=
  let ids := tokenizer env text in
  total_bits <- for_each (range 1 (length ids)) (score ids) fzero ;;
  avg <- truediv total_bits (of_int (Z.of_nat (length ids) - 1)) ;;
  ret (total_bits, avg).

(** The body of the loop of [info_content_background_corrected]. *)
Definition score_corrected (ids : list Z) (i : nat) (total_bits : F) : M F :=
  let history_ids := firstn i ids in
  p_next <- q_prob (nth i ids 0%Z) history_ids ;;
  let p_background := p_bg_dist env (nth i ids 0%Z) in
  if fle p_next fzero then raise (invalid_probability (nth i ids 0%Z))
  else
    l <- math_log2 p_next ;;
    b <- math_log2 p_background ;;
    ret (fadd total_bits (fadd (fneg l) b)).

Definition info_content_background_corrected (text : string) : M (F * F) :=
  let ids := tokenizer env text in
  total_bits <- for_each (range 1 (length ids)) (score_corrected ids) fzero ;;
  avg <- truediv total_bits (of_int (Z.of_nat (length ids) - 1)) ;;
  ret (total_bits, avg).

(** The "Total tokens" figure of the report in [__main__]:
    [total_bits / per_token_bits] of the pair [info_content] returned. *)
Definition total_tokens (sample : string) : M F :=
  r <- info_content sample ;;
  truediv (fst r) (snd r).

End Program.

(** ** What the traversal computes, in closed form *)

Section ClosedForm.
Context {F : Type} {PF : PyFloat F} (env : Env F).

(** The probability [q_prob] returns at index [i]. *)
Definition p_at (ids : list Z) (i : nat) : F :=
  oracle env (firstn i ids) (nth i ids 0%Z).

(** The background probability of the token at index [i]. *)
Definition bg_at (ids : list Z) (i : nat) : F :=
  p_bg_dist env (nth i ids 0%Z).

(** The value of [math.log2(x)] when it returns. *)
Definition log2_value (x : F) : F := if fisnan x then x else libm_log2 x.

(** [-math.log2(p_next)] at index [i]. *)
Definition surprisal (ids : list Z) (i : nat) : F :=
  fneg (log2_value (p_at ids i)).

(** [-math.log2(p_next) + math.log2(p_background)] at index [i]. *)
Definition corrected_term (ids : list Z) (i : nat) : F :=
  fadd (surprisal ids i) (log2_value (bg_at ids i)).

(** A running sum from [0.0], left to right. *)
Definition fsum (terms : list F) : F := fold_left fadd terms fzero.

(** The histories of the scored positions: [ids[:1]], ..., [ids[:N-1]]. *)
Definition histories (ids : list Z) : list (list Z) :=
  map (fun i => firstn i ids) (range 1 (length ids)).

End ClosedForm.

(** The facts about comparisons and conversion the proofs rest on; both
    arithmetics have them ([binary64_laws], [exact_real_laws]). *)
Class PyFloatLaws (F : Type) {PF : PyFloat F} : Prop := {
  fle0_false : forall x : F,
    fle x fzero = false -> fisnan x = true \/ flt fzero x = true;
  flt0_true : forall x : F,
    flt fzero x = true -> fle x fzero = false /\ fisnan x = false;
  fle0_true : forall x : F,
    fle x fzero = true -> flt fzero x = false /\ fisnan x = false;
  of_int_nonzero : forall n : Z,
    (0 < n)%Z -> feq (of_int n) fzero = false
}.

(** ** Test doubles

    Stand-ins for the external parts, used to run the functions on concrete
    inputs. *)

(** A stand-in for the C library's [log2]: the exact value at the powers of
    two the examples use, the correctly rounded value at 0.75, and a step
    function elsewhere. *)
Definition log2_stub (x : float) : float :=
  if (x =? 1)%float then 0%float
  else if (x =? 0.5)%float then (-1)%float
  else if (x =? 0.25)%float then (-2)%float
  else if (x =? 0.75)%float then (-0x1.a8ff971810a5ep-2)%float
  else if (x <=? 1)%float then (-1)%float
  else 1%float.

(** A tokenizer that returns [toks] whatever the text, a two-word decoder,
    and the given model and background table. *)
Definition stub_env {F : Type} (toks : list Z) (model : list Z -> Z -> F)
  (background : Z -> F) : Env F := {|
  tokenizer := fun _ => toks;
  decode := fun t => if (t =? 0)%Z then "the" else " cat";
  oracle := model;
  p_bg_dist := background
|}.

(** The stub of the spec's scenario: the uniform distribution over 4 tokens. *)
Definition uniform4 (toks : list Z) : Env float :=
  stub_env toks (fun _ _ => 0.25%float) (fun _ => 0.25%float).

(** A model that gives the second scored token probability 0. *)
Definition zero_at_two : Env float :=
  stub_env [0; 1; 0]%Z
    (fun h _ => if Nat.eqb (length h) 1 then 0.5%float else 0%float)
    (fun _ => 0.25%float).

(** A background table that gives every token probability 0. *)
Definition zero_background : Env float :=
  stub_env [0; 1]%Z (fun _ _ => 0.5%float) (fun _ => 0%float).

(** One scored token, of probability 0.25 and background probability 0.75. *)
Definition common_token : Env float :=
  stub_env [0; 1]%Z (fun _ _ => 0.25%float) (fun _ => 0.75%float).

(** Fifty tokens: the first scored one has probability 0.5, the other 48
    have probability 1. *)
Definition one_bit_in_49 : Env float :=
  stub_env (repeat 0%Z 50)
    (fun h _ => if Nat.eqb (length h) 1 then 0.5%float else 1%float)
    (fun _ => 0.25%float).

(** Two tokens the model is sure of: probability 1. *)
Definition certain_token : Env float :=
  stub_env [0; 1]%Z (fun _ _ => 1%float) (fun _ => 0.25%float).

(** Over the reals: two tokens, every probability one half. *)
Definition half_everywhere : Env R :=
  stub_env [0; 1]%Z (fun _ _ => (1 / 2)%R) (fun _ => (1 / 2)%R).

(** ** The report of [__main__]

    The script's last lines, from the call of [info_content] on: what it
    prints, in order, and the exception that ends it.  [sample] is the text
    already read and stripped.  The state is the log of model calls together
    with the lines printed so far; how Python writes a float ([str] for
    [{x}], two decimals for [{x:.2f}]) is external. *)

Definition IO (A : Type) : Type :=
  trace * list string -> (exn + A) * (trace * list string).

Definition io_ret {A : Type} (a : A) : IO A := fun w => (inr a, w).

Definition io_bind {A B : Type} (m : IO A) (k : A -> IO B) : IO B :=
  fun w =>
    match m w with
    | (inl e, w') => (inl e, w')
    | (inr a, w') => k a w'
    end.

Notation "x <~ m ;; k" := (io_bind m (fun x => k))
  (at level 100, m at next level, right associativity) : py_scope.

(** A computation that prints nothing. *)
Definition lift {A : Type} (m : M A) : IO A :=
  fun w => let (r, tr') := m (fst w) in (r, (tr', snd w)).

(** [print(line)] *)
Definition print (line : string) : IO unit :=
  fun w => (inr tt, (fst w, snd w ++ [line])).

Record Format (F : Type) : Type := {
  str_float : F -> string;   (* f"{x}" *)
  fixed2 : F -> string       (* f"{x:.2f}" *)
}.
Arguments str_float {F} _ _.
Arguments fixed2 {F} _ _.

(** [len(sample)].  A text is held as its UTF-8 encoding and Python counts
    code points: the bytes that do not continue a sequence (10xxxxxx). *)
Definition continues (c : Ascii.ascii) : bool :=
  let n := Ascii.N_of_ascii c in (128 <=? n)%N && (n <? 192)%N.

Fixpoint len (s : string) : nat :=
  match s with
  | EmptyString => 0
  | String c rest => (if continues c then 0 else 1) + len rest
  end.

(** [str(n)] of a length *)
Definition str_nat (n : nat) : string := NilZero.string_of_uint (Nat.to_uint n).

Section Report.
Context {F : Type} {PF : PyFloat F} (env : Env F) (fmt : Format F).

Definition main (sample : string) : IO unit :=
  r <~ lift (info_content env sample) ;;
  let (total_bits, per_token_bits) := r in
  _ <~ print sample ;;
  _ <~ print (String.append "Character count: " (str_nat (len sample))) ;;
  n <~ lift (truediv total_bits per_token_bits) ;;
  _ <~ print (String.append "Total tokens: " (str_float fmt n)) ;;
  _ <~ print (String.append "Total bits: " (fixed2 fmt total_bits)) ;;
  _ <~ print (String.append "Bits per token: " (fixed2 fmt per_token_bits)) ;;
  c <~ lift (info_content_background_corrected env sample) ;;
  _ <~ print (String.append "Background corrected total bits: "
                (fixed2 fmt (fst c))) ;;
  c' <~ lift (info_content_background_corrected env sample) ;;
  _ <~ print (String.append "Background corrected bits per token: "
                (fixed2 fmt (snd c'))) ;;
  io_ret tt.

(** The two lines printed before the token count. *)
Definition heading (sample : string) : list string :=
  [sample;
   String.append "Character count: " (str_nat (len sample))].

(** The three lines about the plain accumulator's pair. *)
Definition plain_lines (total_bits per_token_bits : F) : list string :=
  [String.append "Total tokens: " (str_float fmt (fdiv total_bits per_token_bits));
   String.append "Total bits: " (fixed2 fmt total_bits);
   String.append "Bits per token: " (fixed2 fmt per_token_bits)].

End Report.

(** A stand-in for Python's float formatting: the digits of an integer
    value with its sign, where Python writes the same ("2.0" and "2.00" for
    2.0, "-0.0" for negative zero, "nan"); "?" for any other value. *)
Definition integer_digits (x : float) : option string :=
  let sign := fun s : bool => if s then "-" else "" in
  let digits := fun z : Z => NilZero.string_of_uint (N.to_uint (Z.to_N z)) in
  match Prim2SF x with
  | S754_zero s => Some (String.append (sign s) "0")
  | S754_finite s m e =>
      if (0 <=? e)%Z
      then Some (String.append (sign s) (digits (Z.pos m * 2 ^ e)%Z))
      else if (Z.pos m mod 2 ^ (- e) =? 0)%Z
           then Some (String.append (sign s) (digits (Z.pos m / 2 ^ (- e))%Z))
           else None
  | _ => None
  end.

Definition stub_format : Format float := {|
  str_float := fun x =>
    match integer_digits x with
    | Some d => String.append d ".0"
    | None => if is_nan x then "nan" else "?"
    end;
  fixed2 := fun x =>
    match integer_digits x with
    | Some d => String.append d ".00"
    | None => if is_nan x then "nan" else "?"
    end
|}.

(** A model that gives every token probability 0. *)
Definition zero_at_one : Env float :=
  stub_env [0; 1; 0]%Z (fun _ _ => 0%float) (fun _ => 0.25%float).

(** Three tokens of conditional probability 0.25 and background
    probability 0.75. *)
Definition common_three : Env float :=
  stub_env [0; 1; 0]%Z (fun _ _ => 0.25%float) (fun _ => 0.75%float).

(** Three tokens of conditional probability 0.25 and background
    probability 0. *)
Definition zero_background_three : Env float :=
  stub_env [0; 1; 0]%Z (fun _ _ => 0.25%float) (fun _ => 0%float).

(** Three tokens of conditional probability 0.25 and background
    probability 0.5. *)
Definition quarter_half : Env float :=
  stub_env [0; 1; 2]%Z (fun _ _ => 0.25%float) (fun _ => 0.5%float).

(** Over the reals: three tokens, every probability one half. *)
Definition half_three : Env R :=
  stub_env [0; 1; 0]%Z (fun _ _ => (1 / 2)%R) (fun _ => (1 / 2)%R).

(** A model that answers NaN for the second scored token. *)
Definition nan_at_two : Env float :=
  stub_env [0; 1; 0]%Z
    (fun h _ => if Nat.eqb (length h) 1 then 0.5%float else nan)
    (fun _ => 0.25%float).

(** Three tokens whose conditional and background probabilities are both
    one half. *)
Definition context_free : Env float :=
  stub_env [0; 1; 0]%Z (fun _ _ => 0.5%float) (fun _ => 0.5%float).

(** A single token, with background probability 0. *)
Definition lone_token : Env float :=
  stub_env [0]%Z (fun _ _ => 0.5%float) (fun _ => 0%float).

(** The conditional and the background probability of the second scored
    token are both 0. *)
Definition both_zero_at_two : Env float :=
  stub_env [0; 1; 0]%Z
    (fun h _ => if Nat.eqb (length h) 1 then 0.5%float else 0%float)
    (fun t => if (t =? 0)%Z then 0%float else 0.25%float).

(** ** IEEE binary64 facts, from the kernel's specification of floats *)

Module Binary64.
Local Open Scope float_scope.

(** [0 <= x]: a zero of either sign, a positive number or [+inf]. *)
Definition nonneg (s : spec_float) : Prop :=
  match s with
  | S754_zero _ => True
  | S754_infinity b | S754_finite b _ _ => b = false
  | S754_nan => False
  end.

(** The mantissa of 1.0. *)
Definition two52 : positive := 4503599627370496.

(** A positive finite number or [+inf], in canonical form. *)
Definition positive_valid (s : spec_float) : Prop :=
  valid_binary s = true /\
  match s with
  | S754_infinity false | S754_finite false _ _ => True
  | _ => False
  end.

Lemma SFeqb_refl_not_nan (s : spec_float) :
  s <> S754_nan -> SFeqb s s = true.
Proof.
  destruct s as [b | b | | b m e]; intros H; try congruence;
    unfold SFeqb; simpl; try (destruct b; reflexivity).
  rewrite Z.compare_refl, Pos.compare_cont_refl. destruct b; reflexivity.
Qed.

Lemma is_nan_spec (x : float) :
  is_nan x = match Prim2SF x with S754_nan => true | _ => false end.
Proof.
  unfold is_nan. rewrite eqb_spec.
  destruct (Prim2SF x) as [b | b | | b m e] eqn:E.
  - reflexivity.
  - destruct b; reflexivity.
  - reflexivity.
  - rewrite SFeqb_refl_not_nan by discriminate. reflexivity.
Qed.

Lemma Prim2SF_zero : Prim2SF 0 = S754_zero false.
Proof. reflexivity. Qed.

Lemma leb0_false (x : float) :
  (x <=? 0) = false -> is_nan x = true \/ (0 <? x) = true.
Proof.
  rewrite leb_spec, ltb_spec, is_nan_spec, Prim2SF_zero.
  destruct (Prim2SF x) as [b | b | | b m e]; unfold SFleb, SFltb; simpl;
    try destruct b; simpl; intros H; try discriminate; auto.
Qed.

Lemma ltb0_true (x : float) :
  (0 <? x) = true -> (x <=? 0) = false /\ is_nan x = false.
Proof.
  rewrite leb_spec, ltb_spec, is_nan_spec, Prim2SF_zero.
  destruct (Prim2SF x) as [b | b | | b m e]; unfold SFleb, SFltb; simpl;
    try destruct b; simpl; intros H; try discriminate; auto.
Qed.

Lemma leb0_true (x : float) :
  (x <=? 0) = true -> (0 <? x) = false /\ is_nan x = false.
Proof.
  rewrite leb_spec, ltb_spec, is_nan_spec, Prim2SF_zero.
  destruct (Prim2SF x) as [b | b | | b m e]; unfold SFleb, SFltb; simpl;
    try destruct b; simpl; intros H; try discriminate; auto.
Qed.

Lemma leb0_nonneg (x : float) : (0 <=? x) = true <-> nonneg (Prim2SF x).
Proof.
  rewrite leb_spec, Prim2SF_zero.
  destruct (Prim2SF x) as [b | b | | b m e]; unfold SFleb; simpl;
    try destruct b; simpl; intuition congruence.
Qed.

Lemma opp_nonneg (x : float) : (x <=? 0) = true -> (0 <=? - x) = true.
Proof.
  intros H. apply leb0_nonneg. rewrite opp_spec.
  revert H. rewrite leb_spec, Prim2SF_zero.
  destruct (Prim2SF x) as [b | b | | b m e]; unfold SFleb; simpl;
    try destruct b; simpl; intuition congruence.
Qed.

(** *** Rounding keeps the sign *)

Lemma iter_pos_inv {A : Type} (P : A -> Prop) (f : A -> A) :
  (forall x, P x -> P (f x)) ->
  forall (n : positive) (x : A), P x -> P (SpecFloat.iter_pos f n x).
Proof.
  intros Hf. induction n as [n IH | n IH | ]; intros x Hx; simpl; auto.
Qed.

Lemma shr_1_nonneg (r : shr_record) :
  (0 <= shr_m r)%Z -> (0 <= shr_m (shr_1 r))%Z.
Proof.
  destruct r as [m r s]. simpl.
  destruct m as [ | [p | p | ] | [p | p | ]]; simpl; lia.
Qed.

Lemma shr_nonneg (r : shr_record) (e n : Z) :
  (0 <= shr_m r)%Z -> (0 <= shr_m (fst (shr r e n)))%Z.
Proof.
  intros H. destruct n as [ | p | p]; simpl; auto.
  apply (iter_pos_inv (fun r => (0 <= shr_m r)%Z)); auto using shr_1_nonneg.
Qed.

Lemma shr_fexp_nonneg (m e : Z) (l : location) :
  (0 <= m)%Z -> (0 <= shr_m (fst (shr_fexp prec emax m e l)))%Z.
Proof.
  intros H. unfold shr_fexp. apply shr_nonneg.
  destruct l as [ | [ | | ]]; simpl; exact H.
Qed.

Lemma round_nearest_even_nonneg (m : Z) (l : location) :
  (0 <= m)%Z -> (0 <= round_nearest_even m l)%Z.
Proof.
  intros H. destruct l as [ | [ | | ]]; simpl; try lia.
  destruct (Z.even m); lia.
Qed.

Lemma binary_round_aux_nonneg (m e : Z) (l : location) :
  (0 <= m)%Z -> nonneg (binary_round_aux prec emax false m e l).
Proof.
  intros H. unfold binary_round_aux.
  pose proof (shr_fexp_nonneg m e l H) as H1.
  destruct (shr_fexp prec emax m e l) as [r1 e1]. simpl in H1.
  pose proof (shr_fexp_nonneg _ e1 loc_Exact
                (round_nearest_even_nonneg _ (loc_of_shr_record r1) H1)) as H2.
  destruct (shr_fexp prec emax _ e1 loc_Exact) as [r2 e2]. simpl in H2.
  destruct (shr_m r2) as [ | p | p]; simpl; auto; try lia.
  destruct (_ <=? _)%Z; exact eq_refl.
Qed.

Lemma binary_round_nonneg (m : positive) (e : Z) :
  nonneg (binary_round prec emax false m e).
Proof.
  unfold binary_round. destruct (shl_align m e _) as [mz ez].
  apply binary_round_aux_nonneg. lia.
Qed.

Lemma SFadd_nonneg (x y : spec_float) :
  nonneg x -> nonneg y -> nonneg (SF64add x y).
Proof.
  destruct x as [a | a | | a mx ex], y as [b | b | | b my ey]; simpl;
    intros Hx Hy; subst; try contradiction; try exact I; try exact eq_refl.
  - destruct a, b; exact I.
  - unfold SF64add, SFadd, cond_Zopp. simpl Z.add.
    apply binary_round_nonneg.
Qed.

Lemma add_nonneg (x y : float) :
  (0 <=? x) = true -> (0 <=? y) = true -> (0 <=? x + y) = true.
Proof.
  intros Hx Hy. apply leb0_nonneg. rewrite add_spec.
  apply SFadd_nonneg; apply leb0_nonneg; assumption.
Qed.

(** *** Dividing by one *)

Lemma fexp_eq (z : Z) : fexp prec emax z = Z.max (z - 53) (-1074).
Proof. reflexivity. Qed.

Lemma bounded_spec (m : positive) (e : Z) :
  bounded prec emax m e = true <->
  Z.max (Z.pos (digits2_pos m) + e - 53) (-1074) = e /\ (e <= 971)%Z.
Proof.
  unfold bounded, canonical_mantissa. rewrite fexp_eq.
  rewrite andb_true_iff, Z.eqb_eq, Z.leb_le. reflexivity.
Qed.

(** A canonical mantissa and exponent round to themselves. *)
Lemma binary_round_aux_canonical (s : bool) (m : positive) (e : Z) :
  bounded prec emax m e = true ->
  binary_round_aux prec emax s (Z.pos m) e loc_Exact = S754_finite s m e.
Proof.
  intros H. apply bounded_spec in H. destruct H as [Hc He].
  unfold binary_round_aux, shr_fexp. cbn [Zdigits2].
  rewrite fexp_eq.
  replace (Z.max (Z.pos (digits2_pos m) + e - 53) (-1074) - e)%Z with 0%Z by lia.
  cbn [shr shr_record_of_loc shr_m loc_of_shr_record round_nearest_even Zdigits2].
  rewrite fexp_eq.
  replace (Z.max (Z.pos (digits2_pos m) + e - 53) (-1074) - e)%Z with 0%Z by lia.
  cbn [shr shr_record_of_loc shr_m].
  replace (e <=? emax - prec)%Z with true; [reflexivity | ].
  symmetry. apply Z.leb_le. exact He.
Qed.

(** Twice a canonical mantissa, one exponent lower, rounds to it. *)
Lemma binary_round_aux_twice (s : bool) (m : positive) (e : Z) :
  bounded prec emax m e = true ->
  binary_round_aux prec emax s (Z.pos m~0) (e - 1) loc_Exact = S754_finite s m e.
Proof.
  intros H. apply bounded_spec in H. destruct H as [Hc He].
  unfold binary_round_aux, shr_fexp. cbn [Zdigits2 digits2_pos].
  rewrite fexp_eq, Pos2Z.inj_succ.
  replace (Z.max (Z.succ (Z.pos (digits2_pos m)) + (e - 1) - 53) (-1074) - (e - 1))%Z
    with 1%Z by lia.
  cbn [shr shr_record_of_loc SpecFloat.iter_pos shr_1 orb shr_m loc_of_shr_record
       round_nearest_even Zdigits2].
  rewrite fexp_eq.
  replace (Z.max (Z.pos (digits2_pos m) + (e - 1 + 1) - 53) (-1074) - (e - 1 + 1))%Z
    with 0%Z by lia.
  cbn [shr shr_record_of_loc shr_m].
  replace (e - 1 + 1 <=? emax - prec)%Z with true.
  - f_equal. lia.
  - symmetry. apply Z.leb_le. change (emax - prec)%Z with 971%Z. lia.
Qed.

Lemma div_eucl_mul (a b : Z) : (0 < b)%Z -> Z.div_eucl (a * b) b = (a, 0%Z).
Proof.
  intros Hb.
  pose proof (Z.div_eucl_eq (a * b) b ltac:(lia)) as E.
  pose proof (Z.mod_pos_bound (a * b) b Hb) as B.
  unfold Z.modulo in B.
  destruct (Z.div_eucl (a * b) b) as [q r].
  assert (q = a) by nia. subst q. f_equal. lia.
Qed.

Lemma SFdiv_one_finite (s : bool) (m : positive) (e : Z) :
  bounded prec emax m e = true ->
  SFdiv prec emax (S754_finite s m e) (S754_finite false two52 (-52))
  = S754_finite s m e.
Proof.
  intros H. pose proof H as H0. apply bounded_spec in H0. destruct H0 as [Hc He].
  unfold SFdiv. rewrite xorb_false_r.
  unfold SFdiv_core_binary. cbn [Zdigits2].
  change (Z.pos (digits2_pos two52)) with 53%Z. rewrite fexp_eq.
  set (d := Z.pos (digits2_pos m)) in *.
  destruct (Z.eq_dec e (-1074)) as [E | E].
  - replace (Z.min (Z.max (d + e - (53 + -52) - 53) (-1074)) (e - -52))
      with e by lia.
    replace (e - -52 - e)%Z with 52%Z by lia.
    rewrite Z.shiftl_mul_pow2 by lia.
    rewrite div_eucl_mul by reflexivity.
    change (new_location (Z.pos two52) 0) with loc_Exact.
    apply binary_round_aux_canonical. exact H.
  - replace (Z.min (Z.max (d + e - (53 + -52) - 53) (-1074)) (e - -52))
      with (e - 1)%Z by lia.
    replace (e - -52 - (e - 1))%Z with 53%Z by lia.
    rewrite Z.shiftl_mul_pow2 by lia.
    replace (Z.pos m * 2 ^ 53)%Z with (Z.pos m~0 * Z.pos two52)%Z
      by (change (2 ^ 53)%Z with (2 * Z.pos two52)%Z; lia).
    rewrite div_eucl_mul by reflexivity.
    change (new_location (Z.pos two52) 0) with loc_Exact.
    apply binary_round_aux_twice. exact H.
Qed.

Lemma div_one (x : float) : x / 1 = x.
Proof.
  apply Prim2SF_inj. rewrite div_spec.
  pose proof (Prim2SF_valid x) as V.
  change (Prim2SF 1) with (S754_finite false two52 (-52)).
  destruct (Prim2SF x) as [s | s | | s m e].
  - simpl. now rewrite xorb_false_r.
  - simpl. now rewrite xorb_false_r.
  - reflexivity.
  - apply SFdiv_one_finite. exact V.
Qed.

(** *** Converting a positive int *)

Lemma digits2_iter_xO (p k : positive) :
  Z.pos (digits2_pos (Pos.iter xO p k)) = (Z.pos (digits2_pos p) + Z.pos k)%Z.
Proof.
  induction k as [ | k IH] using Pos.peano_ind.
  - simpl. lia.
  - rewrite Pos.iter_succ. cbn [digits2_pos]. lia.
Qed.

Lemma shr_1_digits (r : shr_record) (q : positive) :
  shr_m r = Z.pos q -> (1 < Z.pos (digits2_pos q))%Z ->
  exists q', shr_m (shr_1 r) = Z.pos q' /\
             Z.pos (digits2_pos q') = (Z.pos (digits2_pos q) - 1)%Z.
Proof.
  destruct r as [m r s]. cbn [shr_m]. intros -> Hd.
  destruct q as [q | q | ]; cbn [shr_1 shr_m digits2_pos] in *;
    try lia; exists q; rewrite Pos2Z.inj_succ; split; auto; lia.
Qed.

Lemma shr_digits (k : positive) :
  forall (r : shr_record) (q : positive),
    shr_m r = Z.pos q -> (Z.pos k < Z.pos (digits2_pos q))%Z ->
    exists q', shr_m (SpecFloat.iter_pos shr_1 k r) = Z.pos q' /\
               Z.pos (digits2_pos q') = (Z.pos (digits2_pos q) - Z.pos k)%Z.
Proof.
  induction k as [k IH | k IH | ]; intros r q Hr Hd; cbn [SpecFloat.iter_pos].
  - destruct (shr_1_digits r q Hr ltac:(lia)) as (q1 & H1 & D1).
    destruct (IH _ q1 H1 ltac:(lia)) as (q2 & H2 & D2).
    destruct (IH _ q2 H2 ltac:(lia)) as (q3 & H3 & D3).
    exists q3. split; auto. lia.
  - destruct (IH _ q Hr ltac:(lia)) as (q2 & H2 & D2).
    destruct (IH _ q2 H2 ltac:(lia)) as (q3 & H3 & D3).
    exists q3. split; auto. lia.
  - apply shr_1_digits; auto.
Qed.

Lemma digits2_succ (q : positive) :
  digits2_pos (Pos.succ q) = digits2_pos q \/
  exists h, Pos.succ q = xO h /\ digits2_pos h = digits2_pos q.
Proof.
  induction q as [q IH | q IH | ]; cbn [Pos.succ digits2_pos].
  - destruct IH as [IH | (h & E & D)].
    + left. now rewrite IH.
    + right. exists (Pos.succ q). split; auto. rewrite E. cbn [digits2_pos].
      now rewrite D.
  - left. reflexivity.
  - right. exists 1%positive. split; reflexivity.
Qed.

Lemma round_nearest_even_pos (q : positive) (l : location) :
  round_nearest_even (Z.pos q) l = Z.pos q \/
  round_nearest_even (Z.pos q) l = Z.pos (Pos.succ q).
Proof.
  rewrite <- Pos.add_1_r.
  destruct l as [ | [ | | ]]; simpl; auto. destruct q; simpl; auto.
Qed.

Lemma positive_valid_finite (m : positive) (e : Z) :
  Z.pos (digits2_pos m) = 53%Z -> (-1074 <= e)%Z ->
  positive_valid (if (e <=? emax - prec)%Z then S754_finite false m e
                  else S754_infinity false).
Proof.
  intros D E. destruct (e <=? emax - prec)%Z eqn:L.
  - split; [ | exact I]. apply bounded_spec. apply Z.leb_le in L.
    change (emax - prec)%Z with 971%Z in L. lia.
  - split; [reflexivity | exact I].
Qed.

Lemma binary_round_positive_valid (p : positive) :
  positive_valid (binary_round prec emax false p 0).
Proof.
  unfold binary_round. rewrite fexp_eq.
  remember (Z.pos (digits2_pos p)) as d eqn:Ed.
  assert (Hd : (0 < d)%Z) by lia.
  destruct (Z_le_gt_dec d 53) as [Hs | Hl].
  - (* the int fits the mantissa: shifted left, nothing is rounded *)
    assert (B : forall m e, shl_align p 0 (Z.max (d + 0 - 53) (-1074)) = (m, e) ->
                            bounded prec emax m e = true).
    { unfold shl_align. intros m e.
      destruct (Z.max (d + 0 - 53) (-1074) - 0)%Z as [ | k | k ] eqn:K.
      - intros [= <- <-]. apply bounded_spec. lia.
      - lia.
      - intros [= <- <-]. apply bounded_spec. rewrite digits2_iter_xO. lia. }
    destruct (shl_align p 0 _) as [m e]. specialize (B m e eq_refl).
    rewrite binary_round_aux_canonical by exact B.
    split; [exact B | exact I].
  - (* the int is longer than the mantissa: shifted right and rounded *)
    unfold shl_align.
    destruct (Z.max (d + 0 - 53) (-1074) - 0)%Z as [ | k | k ] eqn:K; try lia.
    assert (E1 : shr_fexp prec emax (Z.pos p) 0 loc_Exact
                 = (SpecFloat.iter_pos shr_1 k (shr_record_of_loc (Z.pos p) loc_Exact),
                    (0 + Z.pos k)%Z)).
    { unfold shr_fexp. cbn [Zdigits2]. rewrite <- Ed, fexp_eq, K. reflexivity. }
    unfold binary_round_aux. rewrite E1. clear E1.
    destruct (shr_digits k (shr_record_of_loc (Z.pos p) loc_Exact) p eq_refl)
      as (q & Hq & Dq); [lia | ].
    rewrite <- Ed in Dq.
    remember (SpecFloat.iter_pos shr_1 k (shr_record_of_loc (Z.pos p) loc_Exact)) as r1.
    rewrite Hq.
    assert (R : exists q2,
               round_nearest_even (Z.pos q) (loc_of_shr_record r1) = Z.pos q2 /\
               (Z.pos (digits2_pos q2) = 53%Z \/
                exists h, q2 = xO h /\ Z.pos (digits2_pos h) = 53%Z)).
    { destruct (round_nearest_even_pos q (loc_of_shr_record r1)) as [E | E];
        rewrite E.
      - exists q. split; auto. left. lia.
      - exists (Pos.succ q). split; auto.
        destruct (digits2_succ q) as [S | (h & S1 & S2)].
        + left. rewrite S. lia.
        + right. exists h. split; auto. rewrite S2. lia. }
    destruct R as (q2 & -> & [D2 | (h & -> & Dh)]).
    + unfold shr_fexp. cbn [Zdigits2]. rewrite fexp_eq.
      replace (Z.max (Z.pos (digits2_pos q2) + (0 + Z.pos k) - 53) (-1074)
               - (0 + Z.pos k))%Z with 0%Z by lia.
      cbn [shr shr_record_of_loc shr_m].
      apply positive_valid_finite; auto. lia.
    + unfold shr_fexp. cbn [Zdigits2 digits2_pos]. rewrite fexp_eq, Pos2Z.inj_succ.
      replace (Z.max (Z.succ (Z.pos (digits2_pos h)) + (0 + Z.pos k) - 53) (-1074)
               - (0 + Z.pos k))%Z with 1%Z by lia.
      cbn [shr shr_record_of_loc SpecFloat.iter_pos shr_1 shr_m].
      apply positive_valid_finite; auto. lia.
Qed.

Lemma float_of_Z_nonzero (n : Z) :
  (0 < n)%Z -> (SF2Prim (binary_normalize prec emax n 0 false) =? 0) = false.
Proof.
  intros Hn. destruct n as [ | p | p]; try lia. cbn [binary_normalize].
  destruct (binary_round_positive_valid p) as [V S].
  rewrite eqb_spec, Prim2SF_SF2Prim by exact V.
  destruct (binary_round prec emax false p 0) as [b | [ | ] | | [ | ] m e];
    try contradiction; reflexivity.
Qed.

(** *** NaN, cancellation and a zero numerator *)

Lemma is_nan_eq (x : float) : is_nan x = true -> x = nan.
Proof.
  rewrite is_nan_spec. intros H. apply Prim2SF_inj.
  destruct (Prim2SF x); try discriminate. reflexivity.
Qed.

Lemma add_nan_l (y : float) : nan + y = nan.
Proof. apply Prim2SF_inj. rewrite add_spec. reflexivity. Qed.

Lemma add_nan_r (x : float) : x + nan = nan.
Proof.
  apply Prim2SF_inj. rewrite add_spec.
  change (Prim2SF nan) with S754_nan. destruct (Prim2SF x); reflexivity.
Qed.

Lemma div_nan_l (y : float) : nan / y = nan.
Proof. apply Prim2SF_inj. rewrite div_spec. reflexivity. Qed.

Lemma is_finite_spec (x : float) :
  is_finite x = true ->
  match Prim2SF x with
  | S754_zero _ | S754_finite _ _ _ => True
  | _ => False
  end.
Proof.
  unfold is_finite, is_infinity. rewrite is_nan_spec, eqb_spec, abs_spec.
  change (Prim2SF infinity) with (S754_infinity false).
  destruct (Prim2SF x) as [s | s | | s m e]; cbn; intros H;
    try discriminate; exact I.
Qed.

(** A finite value and its opposite add up to [+0.0]. *)
Lemma opp_add_finite (x : float) : is_finite x = true -> - x + x = 0.
Proof.
  intros H. apply is_finite_spec in H. apply Prim2SF_inj.
  rewrite add_spec, opp_spec. change (Prim2SF 0) with (S754_zero false).
  destruct (Prim2SF x) as [s | s | | s m e]; try contradiction.
  - destruct s; reflexivity.
  - unfold SF64add, SFadd, SFopp. rewrite Z.min_id.
    unfold shl_align. rewrite Z.sub_diag. cbn [fst].
    replace (cond_Zopp (negb s) (Z.pos m) + cond_Zopp s (Z.pos m))%Z
      with 0%Z by (destruct s; cbn [cond_Zopp negb]; lia).
    reflexivity.
Qed.

(** [0.0] divided by the float of a positive int is [0.0]. *)
Lemma zero_div_float_of_Z (n : Z) :
  (0 < n)%Z -> 0 / SF2Prim (binary_normalize prec emax n 0 false) = 0.
Proof.
  intros Hn. destruct n as [ | p | p]; try lia. cbn [binary_normalize].
  destruct (binary_round_positive_valid p) as [V S].
  apply Prim2SF_inj. rewrite div_spec, Prim2SF_SF2Prim by exact V.
  change (Prim2SF 0) with (S754_zero false).
  destruct (binary_round prec emax false p 0) as [b | [ | ] | | [ | ] m e];
    try contradiction; reflexivity.
Qed.

(** A finite value other than zero, divided by itself, is [1.0]. *)
Lemma div_self (x : float) :
  is_finite x = true -> (x =? 0) = false -> x / x = 1.
Proof.
  intros Hf Hz. apply is_finite_spec in Hf. apply Prim2SF_inj.
  rewrite eqb_spec in Hz. change (Prim2SF 0) with (S754_zero false) in Hz.
  rewrite div_spec. change (Prim2SF 1) with (S754_finite false two52 (-52)).
  destruct (Prim2SF x) as [s | s | | s m e]; try contradiction.
  - destruct s; discriminate.
  - unfold SF64div, SFdiv. rewrite xorb_nilpotent.
    unfold SFdiv_core_binary. cbn [Zdigits2]. rewrite fexp_eq.
    replace (Z.min
               (Z.max (Z.pos (digits2_pos m) + e - (Z.pos (digits2_pos m) + e) - 53)
                  (-1074)) (e - e))%Z with (-53)%Z by lia.
    replace (e - e - -53)%Z with 53%Z by lia.
    rewrite Z.shiftl_mul_pow2 by lia.
    rewrite (Z.mul_comm (Z.pos m)), div_eucl_mul by lia.
    replace (new_location (Z.pos m) 0) with loc_Exact
      by (unfold new_location; destruct (Z.even (Z.pos m)); reflexivity).
    reflexivity.
Qed.

End Binary64.

(** ** Both arithmetics satisfy the laws *)

Lemma binary64_laws (log2 : float -> float) : @PyFloatLaws float (binary64 log2).
Proof.
  constructor; cbn [fle flt fisnan feq fzero of_int binary64].
  - exact Binary64.leb0_false.
  - exact Binary64.ltb0_true.
  - exact Binary64.leb0_true.
  - exact Binary64.float_of_Z_nonzero.
Qed.

Lemma exact_real_laws : @PyFloatLaws R exact_real.
Proof.
  constructor; cbn [fle flt fisnan feq fzero of_int exact_real].
  - intros x. destruct (Rle_dec x 0), (Rlt_dec 0 x); auto; try discriminate; lra.
  - intros x. destruct (Rle_dec x 0), (Rlt_dec 0 x); auto; try discriminate; lra.
  - intros x. destruct (Rle_dec x 0), (Rlt_dec 0 x); auto; try discriminate; lra.
  - intros n Hn. destruct (Req_dec_T (IZR n) 0) as [E | E]; auto.
    apply eq_IZR_R0 in E. lia.
Qed.

(** ** The loop, step by step *)

Section Loop.
Context {A : Type}.

(** A loop whose body returns at every index returns the fold of the steps
    and logs one entry per index. *)
Lemma for_each_returns (body : nat -> A -> M A) (step : nat -> A -> A)
  (entry : nat -> list Z) (idxs : list nat) :
  (forall i, In i idxs ->
     forall acc tr, body i acc tr = (inr (step i acc), tr ++ [entry i])) ->
  forall acc tr,
    for_each idxs body acc tr
    = (inr (fold_left (fun a i => step i a) idxs acc), tr ++ map entry idxs).
Proof.
  induction idxs as [ | i rest IH]; intros Hbody acc tr; cbn [for_each map fold_left].
  - unfold ret. now rewrite app_nil_r.
  - unfold bind. rewrite (Hbody i (or_introl eq_refl)).
    rewrite IH by (intros j Hj; apply Hbody; now right).
    now rewrite <- app_assoc.
Qed.

(** A loop stops at the first index whose body raises, with that exception,
    having logged the entries up to and including that index. *)
Lemma for_each_raises (body : nat -> A -> M A) (step : nat -> A -> A)
  (entry : nat -> list Z) (before after : list nat) (i : nat) (e : exn) :
  (forall j, In j before ->
     forall acc tr, body j acc tr = (inr (step j acc), tr ++ [entry j])) ->
  (forall acc tr, body i acc tr = (inl e, tr ++ [entry i])) ->
  forall acc tr,
    for_each (before ++ i :: after) body acc tr
    = (inl e, tr ++ map entry (before ++ [i])).
Proof.
  induction before as [ | j rest IH]; intros Hbefore Hi acc tr;
    cbn [for_each app map].
  - unfold bind. now rewrite Hi.
  - unfold bind. rewrite (Hbefore j (or_introl eq_refl)).
    rewrite IH by (auto; intros k Hk; apply Hbefore; now right).
    now rewrite <- app_assoc.
Qed.

End Loop.

Lemma fold_left_terms {F : Type} (add : F -> F -> F) (term : nat -> F)
  (idxs : list nat) (acc : F) :
  fold_left (fun a i => add a (term i)) idxs acc
  = fold_left add (map term idxs) acc.
Proof.
  revert acc. induction idxs as [ | i rest IH]; intros acc; cbn; auto.
Qed.

(** The least index from [lo] on that satisfies a test, below one that does. *)
Lemma least_such (test : nat -> bool) (lo : nat) :
  forall i, lo <= i -> test i = true ->
  exists j, lo <= j <= i /\ test j = true /\
            forall k, lo <= k < j -> test k = false.
Proof.
  induction i as [i IH] using lt_wf_ind. intros Hlo Hi.
  destruct (existsb test (seq lo (i - lo))) eqn:E.
  - apply existsb_exists in E. destruct E as (k & Hk & Tk).
    apply in_seq in Hk.
    destruct (IH k ltac:(lia) ltac:(lia) Tk) as (j & Hj & Tj & Hmin).
    exists j. repeat split; auto; lia.
  - exists i. repeat split; auto. intros k Hk.
    destruct (test k) eqn:Tk; auto.
    assert (X : existsb test (seq lo (i - lo)) = true).
    { apply existsb_exists. exists k. split; auto. apply in_seq. lia. }
    congruence.
Qed.

Lemma range_split (lo hi i : nat) :
  lo <= i < hi -> range lo hi = range lo i ++ i :: range (S i) hi.
Proof.
  intros H. unfold range.
  replace (hi - lo) with ((i - lo) + S (hi - S i)) by lia.
  rewrite seq_app. cbn [seq]. repeat f_equal; lia.
Qed.

Lemma in_range (lo hi i : nat) : In i (range lo hi) <-> lo <= i < hi.
Proof. unfold range. rewrite in_seq. lia. Qed.

Lemma range_snoc (lo i : nat) : lo <= i -> range lo i ++ [i] = range lo (S i).
Proof.
  intros H. unfold range. replace (S i - lo) with (S (i - lo)) by lia.
  rewrite seq_S. repeat f_equal. lia.
Qed.

(** ** The two accumulators, step by step *)

Section Accumulators.
Context {F : Type} {PF : PyFloat F} {PL : PyFloatLaws F} (env : Env F).

Lemma math_log2_returns (x : F) (tr : trace) :
  fle x fzero = false -> math_log2 x tr = (inr (log2_value x), tr).
Proof.
  intros H. unfold math_log2, log2_value.
  destruct (fisnan x) eqn:N; [reflexivity | ].
  destruct (fle0_false x H) as [N' | P]; [congruence | ].
  now rewrite P.
Qed.

Lemma math_log2_raises (x : F) (tr : trace) :
  fle x fzero = true ->
  math_log2 x tr = (inl (ValueError "math domain error"), tr).
Proof.
  intros H. unfold math_log2.
  destruct (fle0_true x H) as [P N]. now rewrite N, P.
Qed.

Lemma log2_value_positive (x : F) :
  flt fzero x = true -> log2_value x = libm_log2 x.
Proof.
  intros H. unfold log2_value. destruct (flt0_true x H) as [_ N]. now rewrite N.
Qed.

Lemma score_returns (ids : list Z) (i : nat) (acc : F) (tr : trace) :
  fle (p_at env ids i) fzero = false ->
  score env ids i acc tr
  = (inr (fadd acc (surprisal env ids i)), tr ++ [firstn i ids]).
Proof.
  intros H. unfold score, bind, q_prob. fold (p_at env ids i).
  rewrite H, math_log2_returns by exact H. reflexivity.
Qed.

Lemma score_raises (ids : list Z) (i : nat) (acc : F) (tr : trace) :
  fle (p_at env ids i) fzero = true ->
  score env ids i acc tr
  = (inl (invalid_probability env (nth i ids 0%Z)), tr ++ [firstn i ids]).
Proof.
  intros H. unfold score, bind, q_prob. fold (p_at env ids i).
  now rewrite H.
Qed.

Lemma score_corrected_returns (ids : list Z) (i : nat) (acc : F) (tr : trace) :
  fle (p_at env ids i) fzero = false ->
  fle (bg_at env ids i) fzero = false ->
  score_corrected env ids i acc tr
  = (inr (fadd acc (corrected_term env ids i)), tr ++ [firstn i ids]).
Proof.
  intros H B. unfold score_corrected, bind, q_prob.
  fold (p_at env ids i). fold (bg_at env ids i).
  rewrite H, math_log2_returns by exact H.
  rewrite math_log2_returns by exact B. reflexivity.
Qed.

Lemma score_corrected_raises (ids : list Z) (i : nat) (acc : F) (tr : trace) :
  fle (p_at env ids i) fzero = true ->
  score_corrected env ids i acc tr
  = (inl (invalid_probability env (nth i ids 0%Z)), tr ++ [firstn i ids]).
Proof.
  intros H. unfold score_corrected, bind, q_prob. fold (p_at env ids i).
  now rewrite H.
Qed.

Lemma score_corrected_domain (ids : list Z) (i : nat) (acc : F) (tr : trace) :
  fle (p_at env ids i) fzero = false ->
  fle (bg_at env ids i) fzero = true ->
  score_corrected env ids i acc tr
  = (inl (ValueError "math domain error"), tr ++ [firstn i ids]).
Proof.
  intros H B. unfold score_corrected, bind, q_prob.
  fold (p_at env ids i). fold (bg_at env ids i).
  rewrite H, math_log2_returns by exact H.
  rewrite math_log2_raises by exact B. reflexivity.
Qed.

(** The plain loop over indices that all pass the guard. *)
Lemma scores_return (ids : list Z) (idxs : list nat) (acc : F) (tr : trace) :
  (forall i, In i idxs -> fle (p_at env ids i) fzero = false) ->
  for_each idxs (score env ids) acc tr
  = (inr (fold_left fadd (map (surprisal env ids) idxs) acc),
     tr ++ map (fun i => firstn i ids) idxs).
Proof.
  intros H. rewrite <- fold_left_terms.
  apply (for_each_returns (score env ids)
           (fun i a => fadd a (surprisal env ids i)) (fun i => firstn i ids)).
  intros i Hi acc' tr'. apply score_returns. auto.
Qed.

Lemma scores_corrected_return (ids : list Z) (idxs : list nat) (acc : F)
  (tr : trace) :
  (forall i, In i idxs ->
     fle (p_at env ids i) fzero = false /\ fle (bg_at env ids i) fzero = false) ->
  for_each idxs (score_corrected env ids) acc tr
  = (inr (fold_left fadd (map (corrected_term env ids) idxs) acc),
     tr ++ map (fun i => firstn i ids) idxs).
Proof.
  intros H. rewrite <- fold_left_terms.
  apply (for_each_returns (score_corrected env ids)
           (fun i a => fadd a (corrected_term env ids i)) (fun i => firstn i ids)).
  intros i Hi acc' tr'. destruct (H i Hi). now apply score_corrected_returns.
Qed.

(** A plain loop that returned met no probability [<= 0]. *)
Lemma scores_returned (ids : list Z) (idxs : list nat) :
  forall (acc : F) (tr : trace) (total : F) (tr' : trace),
    for_each idxs (score env ids) acc tr = (inr total, tr') ->
    forall i, In i idxs -> fle (p_at env ids i) fzero = false.
Proof.
  induction idxs as [ | j rest IH]; intros acc tr total tr' H i Hi;
    [contradiction | ].
  cbn [for_each] in H. unfold bind in H.
  destruct (fle (p_at env ids j) fzero) eqn:G.
  - rewrite score_raises in H by exact G. discriminate.
  - rewrite score_returns in H by exact G.
    destruct Hi as [<- | Hi]; [exact G | ]. eapply IH; eauto.
Qed.

(** A corrected loop that returned met no probability [<= 0], conditional
    or background. *)
Lemma scores_corrected_returned (ids : list Z) (idxs : list nat) :
  forall (acc : F) (tr : trace) (total : F) (tr' : trace),
    for_each idxs (score_corrected env ids) acc tr = (inr total, tr') ->
    forall i, In i idxs ->
      fle (p_at env ids i) fzero = false /\ fle (bg_at env ids i) fzero = false.
Proof.
  induction idxs as [ | j rest IH]; intros acc tr total tr' H i Hi;
    [contradiction | ].
  cbn [for_each] in H. unfold bind in H.
  destruct (fle (p_at env ids j) fzero) eqn:G.
  - rewrite score_corrected_raises in H by exact G. discriminate.
  - destruct (fle (bg_at env ids j) fzero) eqn:B.
    + rewrite score_corrected_domain in H by assumption. discriminate.
    + rewrite score_corrected_returns in H by assumption.
      destruct Hi as [<- | Hi]; [auto | ]. eapply IH; eauto.
Qed.

(** [info_content] in closed form, when every scored probability passes the
    guard and there is something to score. *)
Lemma info_content_returns (text : string) (tr : trace) :
  let ids := tokenizer env text in
  let total := fsum (map (surprisal env ids) (range 1 (length ids))) in
  2 <= length ids ->
  (forall i, 1 <= i < length ids -> fle (p_at env ids i) fzero = false) ->
  info_content env text tr
  = (inr (total, fdiv total (of_int (Z.of_nat (length ids) - 1))),
     tr ++ histories ids).
Proof.
  intros ids total HN Hp. unfold info_content, bind. fold ids.
  rewrite scores_return by (intros i Hi; apply Hp, in_range, Hi).
  unfold truediv. rewrite of_int_nonzero by lia. reflexivity.
Qed.

Lemma info_content_background_corrected_returns (text : string) (tr : trace) :
  let ids := tokenizer env text in
  let total := fsum (map (corrected_term env ids) (range 1 (length ids))) in
  2 <= length ids ->
  (forall i, 1 <= i < length ids ->
     fle (p_at env ids i) fzero = false /\ fle (bg_at env ids i) fzero = false) ->
  info_content_background_corrected env text tr
  = (inr (total, fdiv total (of_int (Z.of_nat (length ids) - 1))),
     tr ++ histories ids).
Proof.
  intros ids total HN Hp. unfold info_content_background_corrected, bind.
  fold ids.
  rewrite scores_corrected_return by (intros i Hi; apply Hp, in_range, Hi).
  unfold truediv. rewrite of_int_nonzero by lia. reflexivity.
Qed.

(** What a returning [info_content] returned. *)
Lemma info_content_returned (text : string) (tr tr' : trace) (total bpt : F) :
  let ids := tokenizer env text in
  info_content env text tr = (inr (total, bpt), tr') ->
  (forall i, 1 <= i < length ids -> fle (p_at env ids i) fzero = false) /\
  total = fsum (map (surprisal env ids) (range 1 (length ids))) /\
  bpt = fdiv total (of_int (Z.of_nat (length ids) - 1)) /\
  feq (of_int (Z.of_nat (length ids) - 1)) fzero = false /\
  tr' = tr ++ histories ids.
Proof.
  intros ids H. unfold info_content, bind in H. fold ids in H.
  destruct (for_each (range 1 (length ids)) (score env ids) fzero tr)
    as [[e | t] tr1] eqn:L; [discriminate | ].
  pose proof (scores_returned ids _ _ _ _ _ L) as Hp.
  rewrite scores_return in L by exact Hp. injection L as <- <-.
  unfold truediv in H.
  destruct (feq (of_int (Z.of_nat (length ids) - 1)) fzero) eqn:Z0;
    [discriminate | ].
  unfold ret in H. injection H as <- <- <-.
  split; [intros k Hk; apply Hp, in_range, Hk | repeat split; auto].
Qed.

Lemma info_content_background_corrected_returned (text : string)
  (tr tr' : trace) (total bpt : F) :
  let ids := tokenizer env text in
  info_content_background_corrected env text tr = (inr (total, bpt), tr') ->
  (forall i, 1 <= i < length ids ->
     fle (p_at env ids i) fzero = false /\ fle (bg_at env ids i) fzero = false) /\
  total = fsum (map (corrected_term env ids) (range 1 (length ids))) /\
  bpt = fdiv total (of_int (Z.of_nat (length ids) - 1)) /\
  tr' = tr ++ histories ids.
Proof.
  intros ids H. unfold info_content_background_corrected, bind in H.
  fold ids in H.
  destruct (for_each (range 1 (length ids)) (score_corrected env ids) fzero tr)
    as [[e | t] tr1] eqn:L; [discriminate | ].
  pose proof (scores_corrected_returned ids _ _ _ _ _ L) as Hp.
  rewrite scores_corrected_return in L by exact Hp. injection L as <- <-.
  unfold truediv in H.
  destruct (feq (of_int (Z.of_nat (length ids) - 1)) fzero) eqn:Z0;
    [discriminate | ].
  unfold ret in H. injection H as <- <- <-.
  split; [intros k Hk; apply Hp, in_range, Hk | repeat split; auto].
Qed.

End Accumulators.

(** ** Where the accumulators stop *)

Section Failures.
Context {F : Type} {PF : PyFloat F} {PL : PyFloatLaws F} (env : Env F).

(** A probability [<= 0] at some scored index makes [info_content] raise at
    the first such index. *)
Lemma info_content_raises (text : string) (tr : trace) (i : nat) :
  let ids := tokenizer env text in
  1 <= i < length ids ->
  fle (p_at env ids i) fzero = true ->
  exists j,
    1 <= j <= i /\
    fle (p_at env ids j) fzero = true /\
    (forall k, 1 <= k < j -> fle (p_at env ids k) fzero = false) /\
    info_content env text tr
    = (inl (invalid_probability env (nth j ids 0%Z)),
       tr ++ map (fun k => firstn k ids) (range 1 (S j))).
Proof.
  intros ids Hi Hp.
  destruct (least_such (fun k => fle (p_at env ids k) fzero) 1 i
              ltac:(lia) Hp) as (j & Hj & Pj & Hmin).
  exists j. repeat split; auto; try lia.
  unfold info_content, bind. fold ids.
  rewrite (range_split 1 (length ids) j) by lia.
  rewrite (for_each_raises (score env ids)
             (fun k a => fadd a (surprisal env ids k))
             (fun k => firstn k ids) (range 1 j) (range (S j) (length ids)) j
             (invalid_probability env (nth j ids 0%Z))).
  - now rewrite range_snoc by lia.
  - intros k Hk acc tr0. apply score_returns. apply Hmin, in_range, Hk.
  - intros acc tr0. apply score_raises. exact Pj.
Qed.

(** A background probability [<= 0] at a scored index, with the guard on
    the conditional probability passing up to there, makes the corrected
    accumulator raise [math.log2]'s domain error. *)
Lemma corrected_domain_error (text : string) (tr : trace) (i : nat) :
  let ids := tokenizer env text in
  1 <= i < length ids ->
  (forall k, 1 <= k <= i -> fle (p_at env ids k) fzero = false) ->
  fle (bg_at env ids i) fzero = true ->
  exists j,
    1 <= j <= i /\
    fle (bg_at env ids j) fzero = true /\
    info_content_background_corrected env text tr
    = (inl (ValueError "math domain error"),
       tr ++ map (fun k => firstn k ids) (range 1 (S j))).
Proof.
  intros ids Hi Hp Hb.
  destruct (least_such (fun k => fle (bg_at env ids k) fzero) 1 i
              ltac:(lia) Hb) as (j & Hj & Bj & Hmin).
  exists j. repeat split; auto; try lia.
  unfold info_content_background_corrected, bind. fold ids.
  rewrite (range_split 1 (length ids) j) by lia.
  rewrite (for_each_raises (score_corrected env ids)
             (fun k a => fadd a (corrected_term env ids k))
             (fun k => firstn k ids) (range 1 j) (range (S j) (length ids)) j
             (ValueError "math domain error")).
  - now rewrite range_snoc by lia.
  - intros k Hk acc tr0. apply in_range in Hk.
    apply score_corrected_returns; [apply Hp; lia | apply Hmin; lia].
  - intros acc tr0. apply score_corrected_domain; [apply Hp; lia | exact Bj].
Qed.

End Failures.

(** * The claims, on Python's floats *)

(** C1 as stated fails: it holds of no run that the guard ends.  Three
    tokens and a model that gives the first scored one probability 0: the
    call makes one query, not N-1 = 2, and raises instead of returning a
    total. *)
Lemma guard_ends_the_traversal :
  length (tokenizer zero_at_one "the cat the") = 3 /\
  info_content (PF := binary64 log2_stub) zero_at_one "the cat the" []
  = (inl (ValueError "Invalid probability:  cat"), [[0%Z]]).
Proof. split; reflexivity. Qed.

(** C1, amended.  For a token sequence of length N >= 2 in which the model
    answers no scored position with a probability [<= 0], [info_content]
    queries the model exactly N-1 times, once per position i = 1..N-1 and
    in that order, each time with the history [ids[:i]] (of length i, so
    the lengths grow from 1 to N-1), and the total it returns is the
    running sum, from 0.0 and left to right, of [-math.log2(p_i)] for the
    probability [p_i] the model gave to [ids[i]]; [math.log2(p_i)] is the
    C library's [log2(p_i)] whenever [p_i > 0]. *)
Theorem info_content_queries_and_total (log2 : float -> float)
  (env : Env float) (text : string) (tr : trace) :
  let ids := tokenizer env text in
  let N := length ids in
  2 <= N ->
  (forall i, 1 <= i < N -> (p_at env ids i <=? 0)%float = false) ->
  let queries := map (fun i => firstn i ids) (seq 1 (N - 1)) in
  let total :=
    fold_left PrimFloat.add
      (map (fun i => (- log2_value (PF := binary64 log2) (p_at env ids i))%float)
           (seq 1 (N - 1))) 0%float in
  info_content (PF := binary64 log2) env text tr
  = (inr (total, (total / float_of_Z (Z.of_nat N - 1))%float), tr ++ queries) /\
  length queries = N - 1 /\
  (forall i, 1 <= i < N ->
     nth (i - 1) queries [] = firstn i ids /\ length (firstn i ids) = i) /\
  (forall i, (0 <? p_at env ids i)%float = true ->
     log2_value (PF := binary64 log2) (p_at env ids i) = log2 (p_at env ids i)).
Proof.
  intros ids N HN Hp queries total. split; [ | split; [ | split]].
  - rewrite (info_content_returns (PL := binary64_laws log2)); fold ids; fold N.
    + reflexivity.
    + exact HN.
    + exact Hp.
  - unfold queries. now rewrite length_map, length_seq.
  - intros i Hi. split.
    + unfold queries.
      rewrite (nth_indep _ [] (firstn 0 ids))
        by (rewrite length_map, length_seq; lia).
      rewrite (map_nth (fun k => firstn k ids)), seq_nth by lia.
      f_equal. lia.
    + apply firstn_length_le. fold N. lia.
  - intros i Hi. apply (log2_value_positive (PL := binary64_laws log2)), Hi.
Qed.

Lemma info_content_queries_and_total_witness :
  info_content (PF := binary64 log2_stub) (uniform4 [0; 1; 2]%Z) "the cat" []
  = (inr (4%float, 2%float), [[0]; [0; 1]]%Z).
Proof.
  refine (proj1 (info_content_queries_and_total log2_stub
                   (uniform4 [0; 1; 2]%Z) "the cat" [] _ _)).
  - cbn. lia.
  - intros i Hi. reflexivity.
Defined.

(** C9.  On the empty token sequence [info_content] raises nothing and
    returns (0.0, -0.0): the loop body never runs, no query is made, and
    0.0 / -1 is negative zero. *)
Theorem info_content_of_no_tokens (log2 : float -> float) (env : Env float)
  (text : string) (tr : trace) :
  tokenizer env text = [] ->
  info_content (PF := binary64 log2) env text tr = (inr (0%float, (-0)%float), tr).
Proof.
  intros H. unfold info_content. rewrite H. reflexivity.
Qed.

Lemma info_content_of_no_tokens_witness :
  info_content (PF := binary64 log2_stub) (uniform4 []) "" []
  = (inr (0%float, (-0)%float), []).
Proof.
  apply (info_content_of_no_tokens log2_stub (uniform4 []) "" []).
  reflexivity.
Defined.

(** C2, as the code has it.  There is no length check, and no error of that
    kind: on one token [info_content] makes no query and raises
    ZeroDivisionError at [total_bits / 0]; on no token it returns
    (0.0, -0.0). *)
Theorem info_content_short_sequence (log2 : float -> float) (env : Env float)
  (text : string) (tr : trace) :
  let ids := tokenizer env text in
  length ids < 2 ->
  (length ids = 1 /\
   info_content (PF := binary64 log2) env text tr = (inl ZeroDivisionError, tr)) \/
  (length ids = 0 /\
   info_content (PF := binary64 log2) env text tr
   = (inr (0%float, (-0)%float), tr)).
Proof.
  intros ids H. unfold info_content. fold ids.
  destruct (length ids) as [ | [ | n]] eqn:L; [right | left | lia];
    split; reflexivity.
Qed.

Lemma info_content_short_sequence_witness :
  (length (tokenizer (uniform4 [0]%Z) "the") = 1 /\
   info_content (PF := binary64 log2_stub) (uniform4 [0]%Z) "the" []
   = (inl ZeroDivisionError, [])) \/
  (length (tokenizer (uniform4 [0]%Z) "the") = 0 /\
   info_content (PF := binary64 log2_stub) (uniform4 [0]%Z) "the" []
   = (inr (0%float, (-0)%float), [])).
Proof.
  apply (info_content_short_sequence log2_stub (uniform4 [0]%Z) "the" []).
  cbn. lia.
Defined.

(** C2 as stated fails: the empty sequence has fewer than 2 tokens and
    [info_content] returns a pair for it instead of raising. *)
Lemma empty_sequence_is_not_rejected :
  length (tokenizer (uniform4 []) "") < 2 /\
  info_content (PF := binary64 log2_stub) (uniform4 []) "" []
  = (inr (0%float, (-0)%float), []).
Proof. split; [cbn; lia | reflexivity]. Qed.

(** C3.  When [info_content] returns on a sequence of length N >= 2, the
    second component is the first divided by the float N-1, computed from it
    and nothing else; for N = 2 exactly one query is made and the two
    components are equal. *)
Theorem bits_per_token_is_total_over_scored (log2 : float -> float)
  (env : Env float) (text : string) (tr tr' : trace) (total bpt : float) :
  let ids := tokenizer env text in
  let N := length ids in
  2 <= N ->
  info_content (PF := binary64 log2) env text tr = (inr (total, bpt), tr') ->
  bpt = (total / float_of_Z (Z.of_nat N - 1))%float /\
  (N = 2 -> tr' = tr ++ [firstn 1 ids] /\ bpt = total).
Proof.
  intros ids N HN H.
  apply (info_content_returned (PL := binary64_laws log2)) in H.
  fold ids in H. fold N in H. destruct H as (_ & _ & Hb & _ & Ht).
  split; [exact Hb | ]. intros N2. split.
  - rewrite Ht. unfold histories, range. fold N. rewrite N2. reflexivity.
  - rewrite Hb, N2. cbn [fdiv binary64].
    change (float_of_Z (Z.of_nat 2 - 1)) with 1%float.
    apply Binary64.div_one.
Qed.

Lemma bits_per_token_is_total_over_scored_witness :
  2%float = (2 / float_of_Z (Z.of_nat 2 - 1))%float /\
  [[0%Z]] = [] ++ [firstn 1 (tokenizer (uniform4 [0; 1]%Z) "the cat")] /\
  2%float = 2%float.
Proof.
  destruct (bits_per_token_is_total_over_scored log2_stub
              (uniform4 [0; 1]%Z) "the cat" [] [[0%Z]] 2%float 2%float)
    as [H1 H2].
  - cbn. lia.
  - reflexivity.
  - split; [exact H1 | exact (H2 eq_refl)].
Defined.

(** C4.  If the model gives probability [<= 0] to the token at some scored
    position, [info_content] raises [ValueError("Invalid probability: ...")]
    with the decoded token of the first such position j, having queried the
    model for positions 1..j only; the result is the exception, no sum. *)
Theorem nonpositive_probability_aborts (log2 : float -> float)
  (env : Env float) (text : string) (tr : trace) (i : nat) :
  let ids := tokenizer env text in
  let N := length ids in
  2 <= N ->
  1 <= i < N ->
  (p_at env ids i <=? 0)%float = true ->
  exists j,
    1 <= j <= i /\
    (p_at env ids j <=? 0)%float = true /\
    (forall k, 1 <= k < j -> (p_at env ids k <=? 0)%float = false) /\
    info_content (PF := binary64 log2) env text tr
    = (inl (ValueError
              (String.append "Invalid probability: " (decode env (nth j ids 0%Z)))),
       tr ++ map (fun k => firstn k ids) (seq 1 j)).
Proof.
  intros ids N _ Hi Hp.
  destruct (info_content_raises (PL := binary64_laws log2) env text tr i Hi Hp)
    as (j & Hj & Pj & Hmin & E).
  exists j. repeat split; auto; try lia.
  rewrite E. unfold range, invalid_probability.
  now rewrite Nat.sub_succ, Nat.sub_0_r.
Qed.

Lemma nonpositive_probability_aborts_witness :
  exists j,
    1 <= j <= 2 /\
    (p_at zero_at_two [0; 1; 0]%Z j <=? 0)%float = true /\
    (forall k, 1 <= k < j -> (p_at zero_at_two [0; 1; 0]%Z k <=? 0)%float = false) /\
    info_content (PF := binary64 log2_stub) zero_at_two "the cat the" []
    = (inl (ValueError
              (String.append "Invalid probability: "
                 (decode zero_at_two (nth j [0; 1; 0]%Z 0%Z)))),
       [] ++ map (fun k => firstn k [0; 1; 0]%Z) (seq 1 j)).
Proof.
  refine (nonpositive_probability_aborts log2_stub zero_at_two "the cat the"
            [] 2 _ _ _).
  - cbn. lia.
  - cbn. lia.
  - reflexivity.
Defined.

(** C5.  Provided the C library's [log2] is not positive on (0, 1], when
    every scored probability lies in (0, 1] and [info_content] returns,
    every term [-log2(p)] it added is [>= 0] and so is the total. *)
Theorem total_bits_nonnegative (log2 : float -> float) (env : Env float)
  (text : string) (tr tr' : trace) (total bpt : float) :
  let ids := tokenizer env text in
  (forall x : float,
     (0 <? x)%float = true -> (x <=? 1)%float = true ->
     (log2 x <=? 0)%float = true) ->
  (forall i, 1 <= i < length ids ->
     (0 <? p_at env ids i)%float = true /\ (p_at env ids i <=? 1)%float = true) ->
  info_content (PF := binary64 log2) env text tr = (inr (total, bpt), tr') ->
  (forall i, 1 <= i < length ids ->
     (0 <=? - log2 (p_at env ids i))%float = true) /\
  (0 <=? total)%float = true.
Proof.
  intros ids Hlog Hp H.
  assert (Hterm : forall i, 1 <= i < length ids ->
                    (0 <=? - log2 (p_at env ids i))%float = true).
  { intros i Hi. destruct (Hp i Hi) as [P0 P1].
    apply Binary64.opp_nonneg, Hlog; assumption. }
  split; [exact Hterm | ].
  apply (info_content_returned (PL := binary64_laws log2)) in H.
  fold ids in H. destruct H as (_ & -> & _).
  unfold fsum, range.
  assert (G : forall idxs acc,
             (forall i, In i idxs -> 1 <= i < length ids) ->
             (0 <=? acc)%float = true ->
             (0 <=? fold_left (fadd (PyFloat := binary64 log2))
                      (map (surprisal (PF := binary64 log2) env ids) idxs) acc)%float
             = true).
  { induction idxs as [ | i rest IH]; intros acc Hin Hacc; cbn [map fold_left].
    - exact Hacc.
    - apply IH; [intros k Hk; apply Hin; now right | ].
      cbn [fadd binary64]. apply Binary64.add_nonneg; [exact Hacc | ].
      unfold surprisal.
      rewrite (log2_value_positive (PL := binary64_laws log2))
        by (apply Hp, Hin; now left).
      apply Hterm, Hin. now left. }
  apply G; [ | reflexivity]. intros i Hi. apply in_seq in Hi. lia.
Qed.

Lemma log2_stub_nonpositive (x : float) :
  (0 <? x)%float = true -> (x <=? 1)%float = true ->
  (log2_stub x <=? 0)%float = true.
Proof.
  intros _ H1. unfold log2_stub.
  repeat match goal with
         | |- context [if ?c then _ else _] => destruct c eqn:?; try reflexivity
         end.
  congruence.
Qed.

Lemma total_bits_nonnegative_witness :
  info_content (PF := binary64 log2_stub) (uniform4 [0; 1; 2]%Z) "the cat" []
  = (inr (4%float, 2%float), [[0]; [0; 1]]%Z) /\
  (0 <=? 4)%float = true.
Proof.
  split; [reflexivity | ].
  refine (proj2 (total_bits_nonnegative log2_stub (uniform4 [0; 1; 2]%Z)
                   "the cat" [] [[0]; [0; 1]]%Z 4%float 2%float
                   log2_stub_nonpositive _ _)).
  - intros i Hi. split; reflexivity.
  - reflexivity.
Defined.

(** C7.  With the uniform stub over 4 tokens (every query answers 0.25) and
    a C library whose [log2(0.25)] is -2.0, [info_content] on the sequence
    [0, 1, 2] returns total 4.0 and 2.0 bits per token, after the two
    queries [0] and [0, 1]. *)
Theorem uniform_stub_scenario (log2 : float -> float) (env : Env float)
  (text : string) (tr : trace) :
  tokenizer env text = [0; 1; 2]%Z ->
  (forall history token, oracle env history token = 0.25%float) ->
  log2 0.25%float = (-2)%float ->
  info_content (PF := binary64 log2) env text tr
  = (inr (4%float, 2%float), tr ++ [[0]; [0; 1]]%Z).
Proof.
  intros Hids Hq Hlog.
  pose proof (info_content_returns (PL := binary64_laws log2) env text tr) as E.
  rewrite Hids in E. cbv zeta in E. rewrite E; clear E.
  - unfold fsum, histories, range, surprisal, p_at, log2_value.
    cbn [length Nat.sub seq map]. rewrite !Hq.
    cbn [fisnan libm_log2 binary64]. change (is_nan 0.25%float) with false.
    cbv iota. rewrite Hlog. reflexivity.
  - cbn. lia.
  - intros i _. unfold p_at. rewrite Hq. reflexivity.
Qed.

Lemma uniform_stub_scenario_witness :
  info_content (PF := binary64 log2_stub) (uniform4 [0; 1; 2]%Z) "the cat sat" []
  = (inr (4%float, 2%float), [] ++ [[0]; [0; 1]]%Z).
Proof.
  apply (uniform_stub_scenario log2_stub (uniform4 [0; 1; 2]%Z) "the cat sat" []);
    reflexivity.
Defined.

(** C10.  The corrected accumulator guards only the conditional probability.
    If the token at a scored position i has conditional probability > 0 and
    background probability [<= 0], and the guard passed at the positions
    before i, the call raises [math.log2]'s
    [ValueError("math domain error")], which is not the
    "Invalid probability" error, at the first position whose background
    probability is [<= 0]. *)
Theorem background_probability_is_unguarded (log2 : float -> float)
  (env : Env float) (text : string) (tr : trace) (i : nat) :
  let ids := tokenizer env text in
  let N := length ids in
  2 <= N ->
  1 <= i < N ->
  (0 <? p_at env ids i)%float = true ->
  (bg_at env ids i <=? 0)%float = true ->
  (forall k, 1 <= k < i -> (p_at env ids k <=? 0)%float = false) ->
  exists j,
    1 <= j <= i /\
    (bg_at env ids j <=? 0)%float = true /\
    info_content_background_corrected (PF := binary64 log2) env text tr
    = (inl (ValueError "math domain error"),
       tr ++ map (fun k => firstn k ids) (seq 1 j)) /\
    forall token, ValueError "math domain error" <> invalid_probability env token.
Proof.
  intros ids N _ Hi Hp Hb Hbefore.
  destruct (corrected_domain_error (PL := binary64_laws log2) env text tr i Hi)
    as (j & Hj & Bj & E).
  - intros k Hk. destruct (Nat.eq_dec k i) as [-> | Hne].
    + apply (flt0_true (PyFloatLaws := binary64_laws log2)), Hp.
    + apply Hbefore. lia.
  - exact Hb.
  - exists j. repeat split; auto; try lia.
    + rewrite E. unfold range. now rewrite Nat.sub_succ, Nat.sub_0_r.
    + intros token. unfold invalid_probability. cbn. discriminate.
Qed.

Lemma background_probability_is_unguarded_witness :
  exists j,
    1 <= j <= 1 /\
    (bg_at zero_background [0; 1]%Z j <=? 0)%float = true /\
    info_content_background_corrected (PF := binary64 log2_stub)
      zero_background "the cat" []
    = (inl (ValueError "math domain error"),
       [] ++ map (fun k => firstn k [0; 1]%Z) (seq 1 j)) /\
    forall token,
      ValueError "math domain error" <> invalid_probability zero_background token.
Proof.
  refine (background_probability_is_unguarded log2_stub zero_background
            "the cat" [] 1 _ _ _ _ _).
  - cbn. lia.
  - cbn. lia.
  - reflexivity.
  - reflexivity.
  - intros k Hk. lia.
Defined.

(** * The two claims that hold in exact arithmetic only *)

Lemma fold_left_Rplus_difference (f g : nat -> R) (idxs : list nat) (a b : R) :
  (fold_left Rplus (map (fun i => f i + g i) idxs) a
   - fold_left Rplus (map f idxs) b)%R
  = fold_left Rplus (map g idxs) (a - b)%R.
Proof.
  revert a b. induction idxs as [ | i rest IH]; intros a b; cbn [map fold_left].
  - reflexivity.
  - rewrite IH. f_equal. lra.
Qed.

(** C6 as stated fails on floats.  One scored token of probability 0.25 and
    background probability 0.75: the plain total is 2.0, the corrected total
    is 2.0 + log2(0.75) rounded (1.584962500721156), and their difference
    (-0.4150374992788439) is not log2(0.75) (-0.4150374992788438). *)
Lemma correction_difference_is_rounded :
  info_content (PF := binary64 log2_stub) common_token "the cat" []
  = (inr (2%float, 2%float), [[0%Z]]) /\
  info_content_background_corrected (PF := binary64 log2_stub) common_token
    "the cat" []
  = (inr (0x1.95c01a39fbd68p+0%float, 0x1.95c01a39fbd68p+0%float), [[0%Z]]) /\
  (0x1.95c01a39fbd68p+0 - 2)%float = (-0x1.a8ff971810a60p-2)%float /\
  fsum (PF := binary64 log2_stub)
    (map (fun i => log2_stub (bg_at common_token [0; 1]%Z i)) (seq 1 1))
  = (-0x1.a8ff971810a5ep-2)%float /\
  ((-0x1.a8ff971810a60p-2)%float =? (-0x1.a8ff971810a5ep-2)%float)%float = false.
Proof. repeat split; reflexivity. Qed.

(** C6, amended.  When both accumulators return on the same text they have
    made the same queries, and the correction is one float addition per
    token: the plain total is the running sum, from 0.0 and left to right,
    of the terms [-math.log2(p_i)], and the corrected total is the running
    sum of those same terms with [math.log2(background_i)] added to each
    before it is accumulated (second half, on floats).  Evaluated in exact
    real arithmetic, the corrected total minus the plain total is the sum
    of [log2(background_i)] over the scored tokens (first half); on floats
    that equation is not guaranteed, as the run above shows. *)
Theorem background_correction_is_additive :
  (forall (env : Env R) (text : string) (tr tr1 tr2 : trace)
          (plain bpt1 corrected bpt2 : R),
      let ids := tokenizer env text in
      info_content (PF := exact_real) env text tr = (inr (plain, bpt1), tr1) ->
      info_content_background_corrected (PF := exact_real) env text tr
      = (inr (corrected, bpt2), tr2) ->
      (corrected - plain)%R
      = fold_left Rplus
          (map (fun i => (ln (bg_at env ids i) / ln 2)%R)
               (seq 1 (length ids - 1))) 0%R) /\
  (forall (log2 : float -> float) (env : Env float) (text : string)
          (tr tr1 tr2 : trace) (plain bpt1 corrected bpt2 : float),
      let ids := tokenizer env text in
      info_content (PF := binary64 log2) env text tr = (inr (plain, bpt1), tr1) ->
      info_content_background_corrected (PF := binary64 log2) env text tr
      = (inr (corrected, bpt2), tr2) ->
      tr1 = tr2 /\
      plain
      = fsum (PF := binary64 log2)
          (map (surprisal (PF := binary64 log2) env ids)
               (seq 1 (length ids - 1))) /\
      corrected
      = fsum (PF := binary64 log2)
          (map (fun i => (surprisal (PF := binary64 log2) env ids i
                          + log2_value (PF := binary64 log2) (bg_at env ids i))%float)
               (seq 1 (length ids - 1)))).
Proof.
  split.
  - intros env text tr tr1 tr2 plain bpt1 corrected bpt2 ids H1 H2.
    apply (info_content_returned (PL := exact_real_laws)) in H1.
    apply (info_content_background_corrected_returned (PL := exact_real_laws))
      in H2.
    fold ids in H1, H2.
    destruct H1 as (_ & -> & _). destruct H2 as (_ & -> & _).
    unfold fsum, range. cbn [fadd fzero exact_real].
    replace 0%R with (0 - 0)%R at 3 by lra.
    rewrite <- (fold_left_Rplus_difference
                  (surprisal (PF := exact_real) env ids)
                  (fun i => (ln (bg_at env ids i) / ln 2)%R)).
    reflexivity.
  - intros log2 env text tr tr1 tr2 plain bpt1 corrected bpt2 ids H1 H2.
    apply (info_content_returned (PL := binary64_laws log2)) in H1.
    apply (info_content_background_corrected_returned (PL := binary64_laws log2))
      in H2.
    fold ids in H1, H2.
    destruct H1 as (_ & -> & _ & _ & ->). destruct H2 as (_ & -> & _ & ->).
    repeat split; reflexivity.
Qed.

Lemma half_passes_guard : fle (PyFloat := exact_real) (1 / 2)%R 0%R = false.
Proof. cbn. destruct (Rle_dec (1 / 2) 0); [lra | reflexivity]. Qed.

Lemma background_correction_is_additive_witness :
  ((fsum (PF := exact_real)
      (map (corrected_term (PF := exact_real) half_three [0; 1; 0]%Z)
           [1%nat; 2%nat])
    - fsum (PF := exact_real)
        (map (surprisal (PF := exact_real) half_three [0; 1; 0]%Z)
             [1%nat; 2%nat]))%R
   = fold_left Rplus
       (map (fun i => (ln (bg_at half_three [0; 1; 0]%Z i) / ln 2)%R)
            [1%nat; 2%nat]) 0%R)
  /\
  ([[0]; [0; 1]]%Z = [[0]; [0; 1]]%Z /\
   4%float
   = fsum (PF := binary64 log2_stub)
       (map (surprisal (PF := binary64 log2_stub) common_three [0; 1; 0]%Z)
            [1%nat; 2%nat]) /\
   0x1.95c01a39fbd68p+1%float
   = fsum (PF := binary64 log2_stub)
       (map (fun i =>
               (surprisal (PF := binary64 log2_stub) common_three [0; 1; 0]%Z i
                + log2_value (PF := binary64 log2_stub)
                    (bg_at common_three [0; 1; 0]%Z i))%float)
            [1%nat; 2%nat])).
Proof.
  split.
  - refine (proj1 background_correction_is_additive half_three "the cat the"
              [] ([] ++ histories [0; 1; 0]%Z) ([] ++ histories [0; 1; 0]%Z)
              _ _ _ _ _ _).
    + apply (info_content_returns (PL := exact_real_laws) half_three
               "the cat the" []).
      * cbn. lia.
      * intros i Hi. exact half_passes_guard.
    + apply (info_content_background_corrected_returns (PL := exact_real_laws)
               half_three "the cat the" []).
      * cbn. lia.
      * intros i Hi. split; exact half_passes_guard.
  - refine (proj2 background_correction_is_additive log2_stub common_three
              "the cat the" [] [[0]; [0; 1]]%Z [[0]; [0; 1]]%Z 4%float 2%float
              0x1.95c01a39fbd68p+1%float 0x1.95c01a39fbd68p+0%float _ _);
      reflexivity.
Defined.

(** C8 as stated fails on floats.  Fifty tokens carrying one bit in all: the
    total is 1.0, the mean is 1.0 / 49 (not zero), and the reconstructed
    count 1.0 / (1.0 / 49) is 49.000000000000007, not 49. *)
Lemma reconstructed_count_is_rounded :
  length (tokenizer one_bit_in_49 "") = 50 /\
  fst (info_content (PF := binary64 log2_stub) one_bit_in_49 "" [])
  = inr (1%float, 0x1.4e5e0a72f0539p-6%float) /\
  (0x1.4e5e0a72f0539p-6 =? 0)%float = false /\
  fst (total_tokens (PF := binary64 log2_stub) one_bit_in_49 "" [])
  = inr 0x1.8800000000001p+5%float /\
  (0x1.8800000000001p+5 =? float_of_Z (50 - 1))%float = false.
Proof. repeat split; reflexivity. Qed.

(** C8, amended.  On floats, when [info_content] returns (total, mean) for a
    sequence of length N >= 2, the mean is total / (N-1); the report's count
    raises ZeroDivisionError when the mean compares equal to 0 and is the
    float quotient total / mean otherwise, and for N = 2 with a finite total
    other than 0 that quotient is exactly 1.0 = N-1 (first half).
    Evaluated in exact real arithmetic, the quotient is N-1 whenever the
    mean is not 0 (second half); on floats that is not guaranteed for
    N > 2, as the run above shows. *)
Theorem reconstructed_token_count :
  (forall (log2 : float -> float) (env : Env float) (text : string)
          (tr tr' : trace) (total bpt : float),
      let N := length (tokenizer env text) in
      2 <= N ->
      info_content (PF := binary64 log2) env text tr = (inr (total, bpt), tr') ->
      bpt = (total / float_of_Z (Z.of_nat N - 1))%float /\
      ((bpt =? 0)%float = false ->
       total_tokens (PF := binary64 log2) env text tr
       = (inr (total / bpt)%float, tr')) /\
      ((bpt =? 0)%float = true ->
       total_tokens (PF := binary64 log2) env text tr
       = (inl ZeroDivisionError, tr')) /\
      (N = 2 -> is_finite total = true -> (total =? 0)%float = false ->
       total_tokens (PF := binary64 log2) env text tr
       = (inr (float_of_Z (Z.of_nat N - 1)), tr'))) /\
  (forall (env : Env R) (text : string) (tr tr' : trace) (total bpt : R),
      let N := length (tokenizer env text) in
      2 <= N ->
      info_content (PF := exact_real) env text tr = (inr (total, bpt), tr') ->
      bpt <> 0%R ->
      total_tokens (PF := exact_real) env text tr
      = (inr (IZR (Z.of_nat N - 1)), tr')).
Proof.
  split.
  - intros log2 env text tr tr' total bpt N HN H.
    pose proof (info_content_returned (PL := binary64_laws log2) env text
                  tr tr' total bpt H) as (_ & _ & Hb & _).
    fold N in Hb. split; [exact Hb | ].
    unfold total_tokens, bind. rewrite H. cbn [fst snd]. unfold truediv.
    cbn [feq fzero fdiv of_int binary64] in *.
    split; [ | split].
    + intros E. rewrite E. reflexivity.
    + intros E. rewrite E. reflexivity.
    + intros N2 Hf Hz. rewrite N2 in Hb |- *.
      change (float_of_Z (Z.of_nat 2 - 1)) with 1%float in Hb |- *.
      rewrite Binary64.div_one in Hb. subst bpt. rewrite Hz.
      unfold ret. now rewrite Binary64.div_self.
  - intros env text tr tr' total bpt N HN H Hne.
    pose proof (info_content_returned (PL := exact_real_laws) env text
                  tr tr' total bpt H) as (_ & _ & Hb & Hz & _).
    fold N in Hb, Hz.
    unfold total_tokens, bind. rewrite H. cbn [fst snd]. unfold truediv.
    cbn [feq fzero fdiv of_int exact_real] in *.
    destruct (Req_dec_T bpt 0) as [E | _]; [contradiction | ].
    destruct (Req_dec_T (IZR (Z.of_nat N - 1)) 0) as [ | Hn]; [discriminate | ].
    unfold ret. do 2 f_equal.
    assert (Ht : total <> 0%R).
    { intros ->. apply Hne. rewrite Hb. unfold Rdiv. apply Rmult_0_l. }
    rewrite Hb. field. split; assumption.
Qed.

Lemma half_costs_one_bit : (ln (1 / 2) / ln 2)%R = (-1)%R.
Proof.
  pose proof ln_lt_2 as L.
  replace (1 / 2)%R with (/ 2)%R by lra.
  rewrite ln_Rinv by lra. field. lra.
Qed.

Lemma reconstructed_token_count_witness :
  (total_tokens (PF := binary64 log2_stub) (uniform4 [0; 1]%Z) "the cat" []
   = (inr 1%float, [[0%Z]]) /\
   total_tokens (PF := binary64 log2_stub) certain_token "the cat" []
   = (inl ZeroDivisionError, [[0%Z]])) /\
  total_tokens (PF := exact_real) half_three "the cat the" []
  = (inr (IZR (Z.of_nat 3 - 1)), [] ++ histories [0; 1; 0]%Z).
Proof.
  split; [split | ].
  - refine (proj2 (proj2 (proj2 (proj1 reconstructed_token_count log2_stub
              (uniform4 [0; 1]%Z) "the cat" [] [[0%Z]] 2%float 2%float _ _)))
              _ _ _).
    + cbn. lia.
    + reflexivity.
    + reflexivity.
    + reflexivity.
    + reflexivity.
  - refine (proj1 (proj2 (proj2 (proj1 reconstructed_token_count log2_stub
              certain_token "the cat" [] [[0%Z]] 0%float 0%float _ _))) _).
    + cbn. lia.
    + reflexivity.
    + reflexivity.
  - refine (proj2 reconstructed_token_count half_three "the cat the"
              [] ([] ++ histories [0; 1; 0]%Z) _ _ _
              (info_content_returns (PL := exact_real_laws) half_three
                 "the cat the" [] _ _) _).
    + cbn. lia.
    + cbn. lia.
    + intros i Hi. exact half_passes_guard.
    + cbn. rewrite half_costs_one_bit. lra.
Defined.

(** * Beyond the claims: the rest of the two accumulators and the report *)

(** Either a test fails on a whole range, or it holds somewhere in it. *)
Lemma range_test_cases (test : nat -> bool) (lo hi : nat) :
  (forall i, lo <= i < hi -> test i = false) \/
  (exists i, lo <= i < hi /\ test i = true).
Proof.
  destruct (existsb test (range lo hi)) eqn:E.
  - right. apply existsb_exists in E. destruct E as (i & Hi & Ti).
    exists i. split; [apply in_range, Hi | exact Ti].
  - left. intros i Hi. destruct (test i) eqn:Ti; auto.
    assert (X : existsb test (range lo hi) = true).
    { apply existsb_exists. exists i. split; [apply in_range, Hi | exact Ti]. }
    congruence.
Qed.

Section Outcomes.
Context {F : Type} {PF : PyFloat F} {PL : PyFloatLaws F} (env : Env F).

(** The corrected accumulator stops at the first scored index whose
    conditional or background probability is [<= 0]; the guard on the
    conditional probability is tested first. *)
Lemma corrected_stops_at_first (text : string) (tr : trace) (i : nat) :
  let ids := tokenizer env text in
  let bad := fun k =>
    fle (p_at env ids k) fzero || fle (bg_at env ids k) fzero in
  1 <= i < length ids ->
  bad i = true ->
  exists j,
    1 <= j <= i /\ bad j = true /\
    (forall k, 1 <= k < j -> bad k = false) /\
    info_content_background_corrected env text tr
    = (inl (if fle (p_at env ids j) fzero
            then invalid_probability env (nth j ids 0%Z)
            else ValueError "math domain error"),
       tr ++ map (fun k => firstn k ids) (range 1 (S j))).
Proof.
  intros ids bad Hi Hb.
  destruct (least_such bad 1 i ltac:(lia) Hb) as (j & Hj & Bj & Hmin).
  exists j. repeat split; auto; try lia.
  unfold info_content_background_corrected, bind. fold ids.
  rewrite (range_split 1 (length ids) j) by lia.
  rewrite (for_each_raises (score_corrected env ids)
             (fun k a => fadd a (corrected_term env ids k))
             (fun k => firstn k ids) (range 1 j) (range (S j) (length ids)) j
             (if fle (p_at env ids j) fzero
              then invalid_probability env (nth j ids 0%Z)
              else ValueError "math domain error")).
  - now rewrite range_snoc by lia.
  - intros k Hk acc tr0. apply in_range in Hk.
    specialize (Hmin k Hk). unfold bad in Hmin.
    apply orb_false_iff in Hmin. destruct Hmin.
    now apply score_corrected_returns.
  - intros acc tr0. unfold bad in Bj.
    destruct (fle (p_at env ids j) fzero) eqn:G.
    + now apply score_corrected_raises.
    + cbn [orb] in Bj. now apply score_corrected_domain.
Qed.

(** On fewer than two tokens the two accumulators are the same computation. *)
Lemma accumulators_agree_when_short (text : string) (tr : trace) :
  length (tokenizer env text) < 2 ->
  info_content_background_corrected env text tr = info_content env text tr.
Proof.
  intros H. unfold info_content_background_corrected, info_content, range.
  replace (length (tokenizer env text) - 1) with 0 by lia. reflexivity.
Qed.

(** With a background table that is positive on the scored tokens, the
    corrected accumulator ends as the plain one does. *)
Lemma corrected_follows_plain (text : string) (tr : trace) :
  let ids := tokenizer env text in
  (forall i, 1 <= i < length ids -> fle (bg_at env ids i) fzero = false) ->
  (forall e tr', info_content env text tr = (inl e, tr') ->
                 info_content_background_corrected env text tr = (inl e, tr')) /\
  (forall r tr', info_content env text tr = (inr r, tr') ->
                 exists r',
                   info_content_background_corrected env text tr = (inr r', tr')).
Proof.
  intros ids Hbg.
  destruct (Nat.lt_ge_cases (length ids) 2) as [Hs | HN].
  { rewrite accumulators_agree_when_short by exact Hs.
    split; [auto | intros r tr' H; exists r; exact H]. }
  destruct (range_test_cases (fun k => fle (p_at env ids k) fzero) 1 (length ids))
    as [Hp | (i & Hi & Pi)].
  - rewrite (info_content_returns env text tr HN Hp).
    rewrite (info_content_background_corrected_returns env text tr HN)
      by (intros i Hi; split; [apply Hp | apply Hbg]; exact Hi).
    fold ids. split; [discriminate | ].
    intros r tr' [= <- <-]. eexists. reflexivity.
  - destruct (info_content_raises env text tr i Hi Pi)
      as (j & Hj & Pj & Hmin & E).
    destruct (corrected_stops_at_first text tr j ltac:(fold ids; lia))
      as (j' & Hj' & Bj' & Hmin' & E').
    { cbv beta zeta. rewrite Pj. reflexivity. }
    cbv beta zeta in E', Bj', Hmin'. fold ids in E, E', Bj', Hmin', Pj, Hmin.
    assert (j' = j).
    { destruct (Nat.eq_dec j' j) as [ | Hne]; auto.
      rewrite (Hmin j' ltac:(lia)), (Hbg j' ltac:(lia)) in Bj'. discriminate. }
    subst j'. rewrite Pj in E'. rewrite E, E'.
    split; [intros e tr' [= <- <-]; reflexivity | discriminate].
Qed.

End Outcomes.

(** ** The corrected accumulator *)

(** X1.  For a token sequence of length N >= 2 whose scored tokens all have
    positive conditional and background probability,
    [info_content_background_corrected] makes the same N-1 queries as
    [info_content], in the same order, and returns the running sum, from
    0.0 and left to right, of [-log2(p_i) + log2(background_i)], with that
    sum divided by the float N-1. *)
Theorem corrected_queries_and_total (log2 : float -> float)
  (env : Env float) (text : string) (tr : trace) :
  let ids := tokenizer env text in
  let N := length ids in
  2 <= N ->
  (forall i, 1 <= i < N ->
     (0 <? p_at env ids i)%float = true /\ (0 <? bg_at env ids i)%float = true) ->
  let total :=
    fold_left PrimFloat.add
      (map (fun i => (- log2 (p_at env ids i) + log2 (bg_at env ids i))%float)
           (seq 1 (N - 1))) 0%float in
  info_content_background_corrected (PF := binary64 log2) env text tr
  = (inr (total, (total / float_of_Z (Z.of_nat N - 1))%float),
     tr ++ map (fun i => firstn i ids) (seq 1 (N - 1))).
Proof.
  intros ids N HN Hp total.
  rewrite (info_content_background_corrected_returns (PL := binary64_laws log2));
    fold ids; fold N.
  - unfold histories, fsum, range. fold ids. fold N.
    replace (map (corrected_term (PF := binary64 log2) env ids) (seq 1 (N - 1)))
      with (map (fun i => (- log2 (p_at env ids i) + log2 (bg_at env ids i))%float)
                (seq 1 (N - 1))).
    + reflexivity.
    + apply map_ext_in. intros i Hi. apply in_seq in Hi.
      destruct (Hp i ltac:(lia)) as [P B].
      unfold corrected_term, surprisal.
      rewrite !(log2_value_positive (PL := binary64_laws log2)) by assumption.
      reflexivity.
  - exact HN.
  - intros i Hi. destruct (Hp i Hi) as [P B].
    split; apply (flt0_true (PyFloatLaws := binary64_laws log2)); assumption.
Qed.

Lemma corrected_queries_and_total_witness :
  info_content_background_corrected (PF := binary64 log2_stub) context_free
    "the cat the" []
  = (inr (0%float, 0%float), [[0]; [0; 1]]%Z).
Proof.
  refine (corrected_queries_and_total log2_stub context_free "the cat the" [] _ _).
  - cbn. lia.
  - intros i Hi. split; reflexivity.
Defined.

(** X2.  [info_content_background_corrected] stops at the first scored
    position j whose conditional or background probability is [<= 0],
    having queried positions 1..j.  The conditional probability is tested
    first: if it is [<= 0] the error is "Invalid probability" with the
    decoded token, also when the background probability is [<= 0] too;
    otherwise it is [math.log2]'s "math domain error". *)
Theorem corrected_first_failure (log2 : float -> float) (env : Env float)
  (text : string) (tr : trace) (i : nat) :
  let ids := tokenizer env text in
  1 <= i < length ids ->
  ((p_at env ids i <=? 0)%float || (bg_at env ids i <=? 0)%float) = true ->
  exists j,
    1 <= j <= i /\
    ((p_at env ids j <=? 0)%float || (bg_at env ids j <=? 0)%float) = true /\
    (forall k, 1 <= k < j ->
       ((p_at env ids k <=? 0)%float || (bg_at env ids k <=? 0)%float) = false) /\
    info_content_background_corrected (PF := binary64 log2) env text tr
    = (inl (if (p_at env ids j <=? 0)%float
            then ValueError (String.append "Invalid probability: "
                               (decode env (nth j ids 0%Z)))
            else ValueError "math domain error"),
       tr ++ map (fun k => firstn k ids) (seq 1 j)).
Proof.
  intros ids Hi Hb.
  destruct (corrected_stops_at_first (PL := binary64_laws log2) env text tr i
              Hi Hb) as (j & Hj & Bj & Hmin & E).
  exists j. repeat split; auto; try lia.
  rewrite E. unfold range, invalid_probability.
  now rewrite Nat.sub_succ, Nat.sub_0_r.
Qed.

Lemma corrected_first_failure_witness :
  exists j,
    1 <= j <= 2 /\
    ((p_at both_zero_at_two [0; 1; 0]%Z j <=? 0)%float
     || (bg_at both_zero_at_two [0; 1; 0]%Z j <=? 0)%float) = true /\
    (forall k, 1 <= k < j ->
       ((p_at both_zero_at_two [0; 1; 0]%Z k <=? 0)%float
        || (bg_at both_zero_at_two [0; 1; 0]%Z k <=? 0)%float) = false) /\
    info_content_background_corrected (PF := binary64 log2_stub)
      both_zero_at_two "the cat the" []
    = (inl (if (p_at both_zero_at_two [0; 1; 0]%Z j <=? 0)%float
            then ValueError (String.append "Invalid probability: "
                               (decode both_zero_at_two (nth j [0; 1; 0]%Z 0%Z)))
            else ValueError "math domain error"),
       [] ++ map (fun k => firstn k [0; 1; 0]%Z) (seq 1 j)).
Proof.
  refine (corrected_first_failure log2_stub both_zero_at_two "the cat the"
            [] 2 _ _).
  - cbn. lia.
  - reflexivity.
Defined.

(** X3.  When the background table is positive (or NaN) at every scored
    token, the corrected accumulator ends as the plain one does: it raises
    whenever [info_content] raises, with the same exception after the same
    queries, and returns whenever [info_content] returns, after the same
    queries. *)
Theorem corrected_ends_as_plain (log2 : float -> float) (env : Env float)
  (text : string) (tr : trace) :
  let ids := tokenizer env text in
  (forall i, 1 <= i < length ids -> (bg_at env ids i <=? 0)%float = false) ->
  (forall e tr',
     info_content (PF := binary64 log2) env text tr = (inl e, tr') ->
     info_content_background_corrected (PF := binary64 log2) env text tr
     = (inl e, tr')) /\
  (forall r tr',
     info_content (PF := binary64 log2) env text tr = (inr r, tr') ->
     exists r',
       info_content_background_corrected (PF := binary64 log2) env text tr
       = (inr r', tr')).
Proof.
  intros ids H.
  exact (corrected_follows_plain (PL := binary64_laws log2) env text tr H).
Qed.

Lemma corrected_ends_as_plain_witness :
  info_content_background_corrected (PF := binary64 log2_stub) zero_at_two
    "the cat the" []
  = (inl (ValueError "Invalid probability: the"), [[0]; [0; 1]]%Z).
Proof.
  refine (proj1 (corrected_ends_as_plain log2_stub zero_at_two "the cat the"
                   [] _) _ _ _).
  - intros i Hi. reflexivity.
  - reflexivity.
Defined.

(** X4.  On fewer than two tokens [info_content_background_corrected] never
    reads the background table: on one token it makes no query and raises
    ZeroDivisionError, on no token it returns (0.0, -0.0). *)
Theorem corrected_short_sequence (log2 : float -> float) (env : Env float)
  (text : string) (tr : trace) :
  let ids := tokenizer env text in
  length ids < 2 ->
  (length ids = 1 /\
   info_content_background_corrected (PF := binary64 log2) env text tr
   = (inl ZeroDivisionError, tr)) \/
  (length ids = 0 /\
   info_content_background_corrected (PF := binary64 log2) env text tr
   = (inr (0%float, (-0)%float), tr)).
Proof.
  intros ids H. unfold info_content_background_corrected. fold ids.
  destruct (length ids) as [ | [ | n]] eqn:L; [right | left | lia];
    split; reflexivity.
Qed.

Lemma corrected_short_sequence_witness :
  (length (tokenizer lone_token "the") = 1 /\
   info_content_background_corrected (PF := binary64 log2_stub) lone_token
     "the" []
   = (inl ZeroDivisionError, [])) \/
  (length (tokenizer lone_token "the") = 0 /\
   info_content_background_corrected (PF := binary64 log2_stub) lone_token
     "the" []
   = (inr (0%float, (-0)%float), [])).
Proof.
  apply (corrected_short_sequence log2_stub lone_token "the" []).
  cbn. lia.
Defined.

(** X5.  If every scored token has the same conditional and background
    probability, positive and with a finite [log2], each corrected term
    [-log2(p) + log2(p)] is exactly 0.0 and the corrected accumulator
    returns (0.0, 0.0). *)
Theorem corrected_cancels (log2 : float -> float) (env : Env float)
  (text : string) (tr : trace) :
  let ids := tokenizer env text in
  let N := length ids in
  2 <= N ->
  (forall i, 1 <= i < N ->
     bg_at env ids i = p_at env ids i /\
     (0 <? p_at env ids i)%float = true /\
     is_finite (log2 (p_at env ids i)) = true) ->
  info_content_background_corrected (PF := binary64 log2) env text tr
  = (inr (0%float, 0%float), tr ++ map (fun i => firstn i ids) (seq 1 (N - 1))).
Proof.
  intros ids N HN H.
  rewrite (info_content_background_corrected_returns (PL := binary64_laws log2));
    fold ids; fold N.
  - assert (T : fsum (PF := binary64 log2)
                  (map (corrected_term (PF := binary64 log2) env ids)
                       (range 1 N)) = 0%float).
    { unfold fsum. cbn [fzero binary64].
      assert (G : forall idxs,
                 (forall i, In i idxs -> 1 <= i < N) ->
                 fold_left (fadd (PyFloat := binary64 log2))
                   (map (corrected_term (PF := binary64 log2) env ids) idxs)
                   0%float = 0%float).
      { induction idxs as [ | i rest IH]; intros Hin; cbn [map fold_left];
          [reflexivity | ].
        destruct (H i (Hin i (or_introl eq_refl))) as (B & P & Fi).
        assert (E : corrected_term (PF := binary64 log2) env ids i = 0%float).
        { unfold corrected_term, surprisal. rewrite B.
          rewrite (log2_value_positive (PL := binary64_laws log2)) by exact P.
          cbn [fadd fneg binary64]. now apply Binary64.opp_add_finite. }
        rewrite E. cbn [fadd binary64]. change (0 + 0)%float with 0%float.
        apply IH. intros k Hk. apply Hin. now right. }
      apply G. intros i Hi. apply in_range in Hi. exact Hi. }
    rewrite T. cbn [fdiv of_int binary64]. unfold float_of_Z.
    rewrite Binary64.zero_div_float_of_Z by lia. reflexivity.
  - exact HN.
  - intros i Hi. destruct (H i Hi) as (B & P & _). rewrite B.
    split; apply (flt0_true (PyFloatLaws := binary64_laws log2)); exact P.
Qed.

Lemma corrected_cancels_witness :
  info_content_background_corrected (PF := binary64 log2_stub) context_free
    "the cat the" []
  = (inr (0%float, 0%float),
     [] ++ map (fun i => firstn i [0; 1; 0]%Z) (seq 1 (3 - 1))).
Proof.
  refine (corrected_cancels log2_stub context_free "the cat the" [] _ _).
  - cbn. lia.
  - intros i Hi. repeat split; reflexivity.
Defined.

(** ** The plain accumulator *)

(** X6.  A pair returned by [info_content] certifies the whole traversal: the
    token sequence does not have exactly one token, the model answered no
    scored position with a probability [<= 0], exactly the N-1 queries
    [ids[:1]], ..., [ids[:N-1]] were made, in order, the first component is
    the running sum of the terms [-math.log2(p_i)] and the second is the
    first divided by the float N-1. *)
Theorem returned_pair_certifies (log2 : float -> float) (env : Env float)
  (text : string) (tr tr' : trace) (total bpt : float) :
  let ids := tokenizer env text in
  let N := length ids in
  info_content (PF := binary64 log2) env text tr = (inr (total, bpt), tr') ->
  N <> 1 /\
  (forall i, 1 <= i < N -> (p_at env ids i <=? 0)%float = false) /\
  tr' = tr ++ map (fun i => firstn i ids) (seq 1 (N - 1)) /\
  total
  = fold_left PrimFloat.add
      (map (fun i => (- log2_value (PF := binary64 log2) (p_at env ids i))%float)
           (seq 1 (N - 1))) 0%float /\
  bpt = (total / float_of_Z (Z.of_nat N - 1))%float.
Proof.
  intros ids N H.
  apply (info_content_returned (PL := binary64_laws log2)) in H.
  fold ids in H. fold N in H. destruct H as (Hp & Ht & Hb & Hz & Hq).
  split; [ | split; [exact Hp | split; [exact Hq | split; [exact Ht | exact Hb]]]].
  intros L. rewrite L in Hz. discriminate.
Qed.

Lemma returned_pair_certifies_witness :
  3 <> 1 /\
  (forall i, 1 <= i < 3 ->
     (p_at (uniform4 [0; 1; 2]%Z) [0; 1; 2]%Z i <=? 0)%float = false) /\
  [[0]; [0; 1]]%Z = [] ++ map (fun i => firstn i [0; 1; 2]%Z) (seq 1 (3 - 1)) /\
  4%float
  = fold_left PrimFloat.add
      (map (fun i =>
              (- log2_value (PF := binary64 log2_stub)
                   (p_at (uniform4 [0; 1; 2]%Z) [0; 1; 2]%Z i))%float)
           (seq 1 (3 - 1))) 0%float /\
  2%float = (4 / float_of_Z (Z.of_nat 3 - 1))%float.
Proof.
  apply (returned_pair_certifies log2_stub (uniform4 [0; 1; 2]%Z) "the cat"
           [] [[0]; [0; 1]]%Z 4%float 2%float).
  reflexivity.
Defined.

(** X7.  The guard does not stop NaN.  If the model answers NaN for some
    scored token and no scored probability is [<= 0], [info_content] raises
    nothing and returns (nan, nan). *)
Theorem nan_probability_is_not_rejected (log2 : float -> float)
  (env : Env float) (text : string) (tr : trace) (i : nat) :
  let ids := tokenizer env text in
  let N := length ids in
  1 <= i < N ->
  is_nan (p_at env ids i) = true ->
  (forall k, 1 <= k < N -> (p_at env ids k <=? 0)%float = false) ->
  info_content (PF := binary64 log2) env text tr
  = (inr (nan, nan), tr ++ map (fun k => firstn k ids) (seq 1 (N - 1))).
Proof.
  intros ids N Hi Hnan Hp.
  rewrite (info_content_returns (PL := binary64_laws log2) env text tr);
    fold ids; fold N; [ | lia | exact Hp].
  assert (Stay : forall terms, fold_left PrimFloat.add terms nan = nan).
  { induction terms as [ | t rest IH]; cbn [fold_left]; [reflexivity | ].
    now rewrite Binary64.add_nan_l. }
  assert (G : forall idxs acc,
             In i idxs ->
             fold_left (fadd (PyFloat := binary64 log2))
               (map (surprisal (PF := binary64 log2) env ids) idxs) acc = nan).
  { induction idxs as [ | k rest IH]; intros acc Hin; [contradiction | ].
    cbn [map fold_left]. destruct Hin as [-> | Hin]; [ | now apply IH].
    assert (E : surprisal (PF := binary64 log2) env ids i = nan).
    { unfold surprisal, log2_value. cbn [fisnan fneg binary64].
      rewrite Hnan, (Binary64.is_nan_eq _ Hnan). reflexivity. }
    rewrite E. cbn [fadd binary64]. rewrite Binary64.add_nan_r. apply Stay. }
  unfold fsum. rewrite G by (apply in_range; exact Hi).
  cbn [fdiv binary64]. rewrite Binary64.div_nan_l. reflexivity.
Qed.

Lemma nan_probability_is_not_rejected_witness :
  info_content (PF := binary64 log2_stub) nan_at_two "the cat the" []
  = (inr (nan, nan), [] ++ map (fun k => firstn k [0; 1; 0]%Z) (seq 1 (3 - 1))).
Proof.
  refine (nan_probability_is_not_rejected log2_stub nan_at_two "the cat the"
            [] 2 _ _ _).
  - cbn. lia.
  - reflexivity.
  - intros k Hk. cbn in Hk.
    destruct k as [ | [ | [ | k]]]; try lia; reflexivity.
Defined.

(** X8.  [math.log2] never raises inside [info_content]: the call never ends
    with "math domain error".  A ValueError it ends with is the
    "Invalid probability" error of the first scored token whose probability
    is [<= 0], raised after the queries up to that token; a
    ZeroDivisionError it ends with comes from the final division, on a
    sequence of exactly one token and before any query. *)
Theorem info_content_exceptions (log2 : float -> float) (env : Env float)
  (text : string) (tr tr' : trace) (e : exn) :
  let ids := tokenizer env text in
  info_content (PF := binary64 log2) env text tr = (inl e, tr') ->
  e <> ValueError "math domain error" /\
  (forall msg, e = ValueError msg ->
     exists j,
       1 <= j < length ids /\
       (p_at env ids j <=? 0)%float = true /\
       (forall k, 1 <= k < j -> (p_at env ids k <=? 0)%float = false) /\
       msg = String.append "Invalid probability: " (decode env (nth j ids 0%Z)) /\
       tr' = tr ++ map (fun k => firstn k ids) (seq 1 j)) /\
  (e = ZeroDivisionError -> length ids = 1 /\ tr' = tr).
Proof.
  intros ids H.
  assert (C : (length ids = 1 /\ e = ZeroDivisionError /\ tr' = tr) \/
              (exists j,
                 1 <= j < length ids /\
                 (p_at env ids j <=? 0)%float = true /\
                 (forall k, 1 <= k < j -> (p_at env ids k <=? 0)%float = false) /\
                 e = ValueError (String.append "Invalid probability: "
                                   (decode env (nth j ids 0%Z))) /\
                 tr' = tr ++ map (fun k => firstn k ids) (seq 1 j))).
  { destruct (range_test_cases (fun k => (p_at env ids k <=? 0)%float) 1
                (length ids)) as [Hp | (i & Hi & Pi)].
    - destruct (Nat.lt_ge_cases (length ids) 2) as [Hs | HN].
      + left. unfold info_content in H. fold ids in H.
        destruct (length ids) as [ | [ | n]]; [discriminate | | lia].
        injection H as <- <-. auto.
      + rewrite (info_content_returns (PL := binary64_laws log2) env text tr
                   HN Hp) in H. discriminate.
    - right.
      destruct (info_content_raises (PL := binary64_laws log2) env text tr i
                  Hi Pi) as (j & Hj & Pj & Hmin & E).
      rewrite E in H. injection H as <- <-.
      exists j. repeat split; auto; try (fold ids; lia).
      unfold range. now rewrite Nat.sub_succ, Nat.sub_0_r. }
  split; [ | split].
  - destruct C as [(_ & -> & _) | (j & _ & _ & _ & -> & _)]; discriminate.
  - intros msg ->.
    destruct C as [(_ & X & _) | (j & Hj & Pj & Hmin & [= ->] & Ht)];
      [discriminate | ].
    exists j. auto.
  - intros ->.
    destruct C as [(L & _ & Ht) | (j & _ & _ & _ & X & _)];
      [auto | discriminate].
Qed.

Lemma info_content_exceptions_witness :
  ValueError "Invalid probability:  cat" <> ValueError "math domain error" /\
  (forall msg, ValueError "Invalid probability:  cat" = ValueError msg ->
     exists j,
       1 <= j < length (tokenizer zero_at_one "the cat the") /\
       (p_at zero_at_one (tokenizer zero_at_one "the cat the") j <=? 0)%float
       = true /\
       (forall k, 1 <= k < j ->
          (p_at zero_at_one (tokenizer zero_at_one "the cat the") k <=? 0)%float
          = false) /\
       msg = String.append "Invalid probability: "
               (decode zero_at_one
                  (nth j (tokenizer zero_at_one "the cat the") 0%Z)) /\
       [[0%Z]]
       = [] ++ map (fun k => firstn k (tokenizer zero_at_one "the cat the"))
                   (seq 1 j)) /\
  (ValueError "Invalid probability:  cat" = ZeroDivisionError ->
   length (tokenizer zero_at_one "the cat the") = 1 /\ [[0%Z]] = []).
Proof.
  apply (info_content_exceptions log2_stub zero_at_one "the cat the" [] [[0%Z]]
           (ValueError "Invalid probability:  cat")).
  reflexivity.
Defined.

(** ** The report *)

Lemma lift_returns {A : Type} (m : M A) (tr tr' : trace) (out : list string)
  (a : A) :
  m tr = (inr a, tr') -> lift m (tr, out) = (inr a, (tr', out)).
Proof. intros H. unfold lift. cbn [fst snd]. now rewrite H. Qed.

Lemma lift_raises {A : Type} (m : M A) (tr tr' : trace) (out : list string)
  (e : exn) :
  m tr = (inl e, tr') -> lift m (tr, out) = (inl e, (tr', out)).
Proof. intros H. unfold lift. cbn [fst snd]. now rewrite H. Qed.

Section ReportFacts.
Context {F : Type} {PF : PyFloat F} (env : Env F) (fmt : Format F).

(** If [info_content] raises, so does the report, having printed nothing. *)
Lemma main_raises_at_once (sample : string) (tr tr' : trace)
  (out : list string) (e : exn) :
  info_content env sample tr = (inl e, tr') ->
  main env fmt sample (tr, out) = (inl e, (tr', out)).
Proof.
  intros H. unfold main, io_bind. now rewrite (lift_raises _ _ _ _ _ H).
Qed.

(** If the mean compares equal to 0, the report stops after the heading. *)
Lemma main_raises_at_count (sample : string) (tr tr' : trace)
  (out : list string) (total mean : F) :
  info_content env sample tr = (inr (total, mean), tr') ->
  feq mean fzero = true ->
  main env fmt sample (tr, out)
  = (inl ZeroDivisionError, (tr', out ++ heading sample)).
Proof.
  intros H Z. unfold main, io_bind. rewrite (lift_returns _ _ _ _ _ H).
  unfold print. cbn [fst snd]. unfold lift, truediv. cbn [fst snd].
  rewrite Z. unfold raise, heading. now rewrite <- app_assoc.
Qed.

(** The report up to the first corrected call. *)
Lemma main_reaches_corrected (sample : string) (tr tr' : trace)
  (out : list string) (total mean : F) :
  info_content env sample tr = (inr (total, mean), tr') ->
  feq mean fzero = false ->
  main env fmt sample (tr, out)
  = (c <~ lift (info_content_background_corrected env sample) ;;
     _ <~ print (String.append "Background corrected total bits: "
                   (fixed2 fmt (fst c))) ;;
     c' <~ lift (info_content_background_corrected env sample) ;;
     _ <~ print (String.append "Background corrected bits per token: "
                   (fixed2 fmt (snd c'))) ;;
     io_ret tt)%py
      (tr', out ++ heading sample ++ plain_lines fmt total mean).
Proof.
  intros H Z. unfold main. unfold io_bind at 1.
  rewrite (lift_returns _ _ _ _ _ H).
  unfold io_bind at 1. unfold print at 1. cbn [fst snd].
  unfold io_bind at 1. unfold print at 1. cbn [fst snd].
  unfold io_bind at 1. unfold lift at 1, truediv. cbn [fst snd].
  rewrite Z. unfold ret.
  unfold io_bind at 1. unfold print at 1. cbn [fst snd].
  unfold io_bind at 1. unfold print at 1. cbn [fst snd].
  unfold io_bind at 1. unfold print at 1. cbn [fst snd].
  unfold heading, plain_lines. rewrite <- !app_assoc. reflexivity.
Qed.

End ReportFacts.

Section ReportRuns.
Context {F : Type} {PF : PyFloat F} {PL : PyFloatLaws F}.
Context (env : Env F) (fmt : Format F).

Lemma main_runs (sample : string) (tr : trace) (out : list string) :
  let ids := tokenizer env sample in
  let total := fsum (map (surprisal env ids) (range 1 (length ids))) in
  let mean := fdiv total (of_int (Z.of_nat (length ids) - 1)) in
  let corrected := fsum (map (corrected_term env ids) (range 1 (length ids))) in
  2 <= length ids ->
  (forall i, 1 <= i < length ids ->
     fle (p_at env ids i) fzero = false /\ fle (bg_at env ids i) fzero = false) ->
  feq mean fzero = false ->
  main env fmt sample (tr, out)
  = (inr tt,
     (((tr ++ histories ids) ++ histories ids) ++ histories ids,
      out ++ heading sample ++ plain_lines fmt total mean ++
      [String.append "Background corrected total bits: " (fixed2 fmt corrected);
       String.append "Background corrected bits per token: "
         (fixed2 fmt (fdiv corrected (of_int (Z.of_nat (length ids) - 1))))])).
Proof.
  intros ids total mean corrected HN Hp Z.
  assert (Hplain : forall i, 1 <= i < length ids ->
                     fle (p_at env ids i) fzero = false)
    by (intros i Hi; apply Hp, Hi).
  rewrite (main_reaches_corrected env fmt sample tr (tr ++ histories ids) out
             total mean
             (info_content_returns env sample tr HN Hplain) Z).
  unfold io_bind at 1.
  rewrite (lift_returns _ _ _ _ _
             (info_content_background_corrected_returns env sample
                (tr ++ histories ids) HN Hp)).
  fold ids. fold corrected.
  unfold io_bind at 1. unfold print at 1. cbn [fst snd].
  unfold io_bind at 1.
  rewrite (lift_returns _ _ _ _ _
             (info_content_background_corrected_returns env sample
                ((tr ++ histories ids) ++ histories ids) HN Hp)).
  fold ids. fold corrected.
  unfold io_bind, print, io_ret. cbn [fst snd].
  rewrite <- !app_assoc. reflexivity.
Qed.

Lemma main_stops_at_background (sample : string) (tr : trace)
  (out : list string) (i : nat) :
  let ids := tokenizer env sample in
  let total := fsum (map (surprisal env ids) (range 1 (length ids))) in
  let mean := fdiv total (of_int (Z.of_nat (length ids) - 1)) in
  1 <= i < length ids ->
  (forall k, 1 <= k < length ids -> fle (p_at env ids k) fzero = false) ->
  feq mean fzero = false ->
  fle (bg_at env ids i) fzero = true ->
  exists j,
    1 <= j <= i /\
    fle (bg_at env ids j) fzero = true /\
    main env fmt sample (tr, out)
    = (inl (ValueError "math domain error"),
       ((tr ++ histories ids) ++ map (fun k => firstn k ids) (range 1 (S j)),
        out ++ heading sample ++ plain_lines fmt total mean)).
Proof.
  intros ids total mean Hi Hp Z Hb.
  destruct (corrected_domain_error env sample (tr ++ histories ids) i Hi
              ltac:(intros k Hk; apply Hp; fold ids; lia) Hb)
    as (j & Hj & Bj & E).
  exists j. repeat split; auto; try lia.
  rewrite (main_reaches_corrected env fmt sample tr (tr ++ histories ids) out
             total mean
             (info_content_returns env sample tr ltac:(fold ids; lia) Hp) Z).
  unfold io_bind at 1. now rewrite (lift_raises _ _ _ _ _ E).
Qed.

End ReportRuns.

(** X9.  A report that runs to its end makes 3 (N-1) model queries: the
    histories [ids[:1]], ..., [ids[:N-1]] once for [info_content] and once
    more for each of the two calls of [info_content_background_corrected],
    whose results are each used for one line.  That happens when N >= 2, no
    scored conditional or background probability is [<= 0] and the mean is
    not 0; the seven lines are then printed in the order of the script. *)
Theorem main_full_run (log2 : float -> float) (env : Env float)
  (fmt : Format float) (sample : string) (tr : trace) (out : list string) :
  let ids := tokenizer env sample in
  let N := length ids in
  let total :=
    fsum (PF := binary64 log2)
      (map (surprisal (PF := binary64 log2) env ids) (range 1 N)) in
  let mean := (total / float_of_Z (Z.of_nat N - 1))%float in
  let corrected :=
    fsum (PF := binary64 log2)
      (map (corrected_term (PF := binary64 log2) env ids) (range 1 N)) in
  let queries := map (fun i => firstn i ids) (seq 1 (N - 1)) in
  2 <= N ->
  (forall i, 1 <= i < N ->
     (p_at env ids i <=? 0)%float = false /\
     (bg_at env ids i <=? 0)%float = false) ->
  (mean =? 0)%float = false ->
  main (PF := binary64 log2) env fmt sample (tr, out)
  = (inr tt,
     (tr ++ queries ++ queries ++ queries,
      out ++
      [sample;
       String.append "Character count: " (str_nat (len sample));
       String.append "Total tokens: " (str_float fmt (total / mean)%float);
       String.append "Total bits: " (fixed2 fmt total);
       String.append "Bits per token: " (fixed2 fmt mean);
       String.append "Background corrected total bits: " (fixed2 fmt corrected);
       String.append "Background corrected bits per token: "
         (fixed2 fmt (corrected / float_of_Z (Z.of_nat N - 1))%float)])) /\
  length (queries ++ queries ++ queries) = 3 * (N - 1).
Proof.
  intros ids N total mean corrected queries HN Hp Z. split.
  - rewrite (main_runs (PL := binary64_laws log2) env fmt sample tr out HN Hp Z).
    fold ids. fold N. unfold histories, range. fold ids. fold N. fold queries.
    rewrite <- !app_assoc. reflexivity.
  - unfold queries. rewrite !length_app, length_map, length_seq. lia.
Qed.

Lemma main_full_run_witness :
  main (PF := binary64 log2_stub) quarter_half stub_format "le café"
    ([], [])
  = (inr tt,
     ([[0]; [0; 1]; [0]; [0; 1]; [0]; [0; 1]]%Z,
      ["le café"; "Character count: 7"; "Total tokens: 2.0";
       "Total bits: 4.00"; "Bits per token: 2.00";
       "Background corrected total bits: 2.00";
       "Background corrected bits per token: 1.00"])).
Proof.
  refine (proj1 (main_full_run log2_stub quarter_half stub_format
                   "le café" [] [] _ _ _)).
  - cbn. lia.
  - intros i Hi. split; reflexivity.
  - reflexivity.
Defined.

(** X10.  On a text of fewer than two tokens the report ends in
    ZeroDivisionError without a model query.  With no token,
    [info_content] returns (0.0, -0.0), the text and the character count are
    printed, and the division for the token count raises; with one token
    [info_content] itself raises and nothing is printed. *)
Theorem main_short_text (log2 : float -> float) (env : Env float)
  (fmt : Format float) (sample : string) (tr : trace) (out : list string) :
  let ids := tokenizer env sample in
  length ids < 2 ->
  (length ids = 0 /\
   main (PF := binary64 log2) env fmt sample (tr, out)
   = (inl ZeroDivisionError,
      (tr, out ++
           [sample;
            String.append "Character count: "
              (str_nat (len sample))]))) \/
  (length ids = 1 /\
   main (PF := binary64 log2) env fmt sample (tr, out)
   = (inl ZeroDivisionError, (tr, out))).
Proof.
  intros ids H.
  destruct (length ids) as [ | [ | n]] eqn:L; [left | right | lia];
    split; auto.
  - apply (main_raises_at_count (PF := binary64 log2) env fmt sample tr tr out
             0%float (-0)%float); [ | reflexivity].
    unfold info_content. fold ids. rewrite L. reflexivity.
  - apply main_raises_at_once.
    unfold info_content. fold ids. rewrite L. reflexivity.
Qed.

Lemma main_short_text_witness :
  (length (tokenizer (uniform4 []) "") = 0 /\
   main (PF := binary64 log2_stub) (uniform4 []) stub_format "" ([], [])
   = (inl ZeroDivisionError, ([], [] ++ [""; "Character count: 0"]))) \/
  (length (tokenizer (uniform4 []) "") = 1 /\
   main (PF := binary64 log2_stub) (uniform4 []) stub_format "" ([], [])
   = (inl ZeroDivisionError, ([], []))).
Proof.
  apply (main_short_text log2_stub (uniform4 []) stub_format "" [] []).
  cbn. lia.
Defined.

(** X11.  A text the model is sure of breaks the report.  If every scored
    token has probability 1.0 and [log2(1.0)] is 0.0, [info_content]
    returns (0.0, 0.0), and the report prints the text and the character
    count and then raises ZeroDivisionError at the token count, before the
    corrected accumulator is ever called. *)
Theorem main_predictable_text (log2 : float -> float) (env : Env float)
  (fmt : Format float) (sample : string) (tr : trace) (out : list string) :
  let ids := tokenizer env sample in
  let N := length ids in
  let queries := map (fun i => firstn i ids) (seq 1 (N - 1)) in
  2 <= N ->
  (forall i, 1 <= i < N -> p_at env ids i = 1%float) ->
  log2 1%float = 0%float ->
  info_content (PF := binary64 log2) env sample tr
  = (inr (0%float, 0%float), tr ++ queries) /\
  main (PF := binary64 log2) env fmt sample (tr, out)
  = (inl ZeroDivisionError,
     (tr ++ queries,
      out ++
      [sample;
       String.append "Character count: " (str_nat (len sample))])).
Proof.
  intros ids N queries HN Hp Hlog.
  assert (E : info_content (PF := binary64 log2) env sample tr
              = (inr (0%float, 0%float), tr ++ queries)).
  { rewrite (info_content_returns (PL := binary64_laws log2) env sample tr);
      fold ids; fold N.
    - assert (T : fsum (PF := binary64 log2)
                    (map (surprisal (PF := binary64 log2) env ids) (range 1 N))
                  = 0%float).
      { unfold fsum. cbn [fzero binary64].
        assert (G : forall idxs,
                   (forall i, In i idxs -> 1 <= i < N) ->
                   fold_left (fadd (PyFloat := binary64 log2))
                     (map (surprisal (PF := binary64 log2) env ids) idxs)
                     0%float = 0%float).
        { induction idxs as [ | i rest IH]; intros Hin; cbn [map fold_left];
            [reflexivity | ].
          assert (S : surprisal (PF := binary64 log2) env ids i = (-0)%float).
          { unfold surprisal, log2_value.
            rewrite (Hp i (Hin i (or_introl eq_refl))).
            cbn [fisnan fneg libm_log2 binary64].
            change (is_nan 1) with false. cbv iota. now rewrite Hlog. }
          rewrite S. cbn [fadd binary64]. change (0 + -0)%float with 0%float.
          apply IH. intros k Hk. apply Hin. now right. }
        apply G. intros i Hi. apply in_range in Hi. exact Hi. }
      rewrite T. cbn [fdiv of_int binary64]. unfold float_of_Z.
      rewrite Binary64.zero_div_float_of_Z by lia. reflexivity.
    - exact HN.
    - intros i Hi. rewrite (Hp i Hi). reflexivity. }
  split; [exact E | ].
  apply (main_raises_at_count (PF := binary64 log2) env fmt sample tr
           (tr ++ queries) out 0%float 0%float E).
  reflexivity.
Qed.

Lemma main_predictable_text_witness :
  info_content (PF := binary64 log2_stub) certain_token "don’t" []
  = (inr (0%float, 0%float), [[0%Z]]) /\
  main (PF := binary64 log2_stub) certain_token stub_format "don’t" ([], [])
  = (inl ZeroDivisionError, ([[0%Z]], ["don’t"; "Character count: 5"])).
Proof.
  refine (main_predictable_text log2_stub certain_token stub_format "don’t"
            [] [] _ _ _).
  - cbn. lia.
  - intros i Hi. reflexivity.
  - reflexivity.
Defined.

(** X12.  A background probability [<= 0] cuts the report short.  If
    [info_content] returns a mean other than 0 and some scored token has
    background probability [<= 0], the report prints its first five lines
    and then raises "math domain error" from the first corrected call, after
    the N-1 queries of [info_content] and the queries of the corrected call
    up to the first such token. *)
Theorem main_background_failure (log2 : float -> float) (env : Env float)
  (fmt : Format float) (sample : string) (tr : trace) (out : list string)
  (i : nat) :
  let ids := tokenizer env sample in
  let N := length ids in
  let total :=
    fsum (PF := binary64 log2)
      (map (surprisal (PF := binary64 log2) env ids) (range 1 N)) in
  let mean := (total / float_of_Z (Z.of_nat N - 1))%float in
  1 <= i < N ->
  (forall k, 1 <= k < N -> (p_at env ids k <=? 0)%float = false) ->
  (mean =? 0)%float = false ->
  (bg_at env ids i <=? 0)%float = true ->
  exists j,
    1 <= j <= i /\
    (bg_at env ids j <=? 0)%float = true /\
    main (PF := binary64 log2) env fmt sample (tr, out)
    = (inl (ValueError "math domain error"),
       (tr ++ map (fun k => firstn k ids) (seq 1 (N - 1))
           ++ map (fun k => firstn k ids) (seq 1 j),
        out ++
        [sample;
         String.append "Character count: " (str_nat (len sample));
         String.append "Total tokens: " (str_float fmt (total / mean)%float);
         String.append "Total bits: " (fixed2 fmt total);
         String.append "Bits per token: " (fixed2 fmt mean)])).
Proof.
  intros ids N total mean Hi Hp Z Hb.
  destruct (main_stops_at_background (PL := binary64_laws log2) env fmt sample
              tr out i Hi Hp Z Hb) as (j & Hj & Bj & E).
  exists j. repeat split; auto; try lia.
  rewrite E. fold ids. fold N. unfold histories, range. fold ids. fold N.
  rewrite Nat.sub_succ, Nat.sub_0_r, <- app_assoc. reflexivity.
Qed.

Lemma main_background_failure_witness :
  exists j,
    1 <= j <= 1 /\
    (bg_at zero_background_three [0; 1; 0]%Z j <=? 0)%float = true /\
    main (PF := binary64 log2_stub) zero_background_three stub_format
      "the cat the" ([], [])
    = (inl (ValueError "math domain error"),
       ([] ++ map (fun k => firstn k [0; 1; 0]%Z) (seq 1 (3 - 1))
           ++ map (fun k => firstn k [0; 1; 0]%Z) (seq 1 j),
        [] ++
        ["the cat the"; "Character count: 11"; "Total tokens: 2.0";
         "Total bits: 4.00"; "Bits per token: 2.00"])).
Proof.
  refine (main_background_failure log2_stub zero_background_three stub_format
            "the cat the" [] [] 1 _ _ _ _).
  - cbn. lia.
  - intros k Hk. reflexivity.
  - reflexivity.
  - reflexivity.
Defined.
